(** * QWinEventNotifier: enable/disable state machine and thread-affinity hand-off

    A shallow embedding of [src/corelib/kernel/qwineventnotifier.cpp].

    The notifier keeps two private fields ([handleToEvent], [enabled]) and
    talks to three collaborators that live outside the file: the event
    dispatcher of its thread ([registerEventNotifier],
    [unregisterEventNotifier]), the meta-object system
    ([QMetaObject::invokeMethod] with a queued connection) and its base class
    ([QObject::event]).  Member functions are embedded as computations in a
    state-and-abort monad over a [World]; every call that leaves the file is
    appended to a chronological [trace]. *)

From Stdlib Require Import ZArith String.
From stdpp Require Import base option list gmap.

Local Open Scope Z_scope.

(** ** Data *)

(** A Windows [HANDLE] is an opaque pointer-sized value; [0] is the null
    handle used by the default constructor. *)
Abbreviation HANDLE := Z (only parsing).

(** Object identity of a notifier (the [this] pointer). *)
Abbreviation ObjId := positive (only parsing).

(** Identity of a [QThreadData] block, one per thread. *)
Abbreviation ThreadId := nat (only parsing).

(** The event types [QWinEventNotifier::event] distinguishes; every other
    [QEvent::Type] behaves alike and is kept by number. *)
Inductive QEventType :=
| ThreadChange
| WinEventAct
| OtherEvent (code : nat).

#[global] Instance QEventType_eq_dec : EqDecision QEventType.
Proof. solve_decision. Defined.

(** [class QWinEventNotifierPrivate : public QObjectPrivate].  [threadData]
    is the field inherited from [QObjectPrivate] that the member functions
    read through [d->threadData]. *)
Record QWinEventNotifierPrivate := mkPrivate {
  threadData : ThreadId;
  handleToEvent : HANDLE;
  enabled : bool
}.

(** [QWinEventNotifierPrivate() : handleToEvent(0), enabled(false) {}] *)
Definition QWinEventNotifierPrivate_default (td : ThreadId) : QWinEventNotifierPrivate :=
  {| threadData := td; handleToEvent := 0; enabled := false |}.

(** [QWinEventNotifierPrivate(HANDLE h, bool e) : handleToEvent(h), enabled(e) {}] *)
Definition QWinEventNotifierPrivate_init (td : ThreadId) (h : HANDLE) (e : bool)
  : QWinEventNotifierPrivate :=
  {| threadData := td; handleToEvent := h; enabled := e |}.

(** A slot invocation packaged by [QMetaObject::invokeMethod]; the file only
    ever queues ["setEnabled"] with one [bool] argument. *)
Inductive MetaCall :=
| MC_setEnabled (arg : bool).

(** What the dispatcher answers to a registration request. *)
Inductive RegisterStatus :=
| Registered
| CapacityExceeded.

#[global] Instance RegisterStatus_eq_dec : EqDecision RegisterStatus.
Proof. solve_decision. Defined.

(** Modelled from the spec: the class [QEventDispatcherWin32] is declared in
    [qeventdispatcher_win_p.h], which is not among the sources.  The notifier
    uses exactly two of its members.  [registerEventNotifier] receives the
    notifier pointer, through which the dispatcher can read the watched
    handle, so the handle held at call time is passed along; its answer is
    the status the spec wants surfaced at registration time. *)
Class QEventDispatcherWin32 (D : Type) := {
  registerEventNotifier : ObjId → HANDLE → D → RegisterStatus * D;
  unregisterEventNotifier : ObjId → D → D
}.

(** Calls that leave the translation unit, in the order they are made.  A
    dispatcher call records the thread whose dispatcher receives it and the
    handle the notifier holds at that moment. *)
Inductive Call :=
| call_registerEventNotifier (t : ThreadId) (n : ObjId) (h : HANDLE) (st : RegisterStatus)
| call_unregisterEventNotifier (t : ThreadId) (n : ObjId) (h : HANDLE)
| call_invokeMethod_Queued (n : ObjId) (m : MetaCall)
| call_QObject_event (n : ObjId) (e : QEventType)
| emit_activated (n : ObjId) (h : HANDLE).

#[global] Instance MetaCall_eq_dec : EqDecision MetaCall.
Proof. solve_decision. Defined.

#[global] Instance Call_eq_dec : EqDecision Call.
Proof. solve_decision. Defined.

Definition is_register (c : Call) : bool :=
  match c with call_registerEventNotifier _ _ _ _ => true | _ => false end.

Definition is_activated (c : Call) : bool :=
  match c with emit_activated _ _ => true | _ => false end.

Definition is_queued (c : Call) : bool :=
  match c with call_invokeMethod_Queued _ _ => true | _ => false end.

(** Number of calls in a trace that satisfy a test. *)
Definition count (p : Call → bool) (tr : list Call) : nat :=
  length (filter (λ c, p c = true) tr).

(** ** The world and the monad *)

Section Notifier.
Context {D : Type} `{QEventDispatcherWin32 D}.

(** One notifier together with what it can reach:
    - [d_ptr]: its private data ([Q_D(QWinEventNotifier)]);
    - [eventDispatchers]: for each thread, the result of
      [qobject_cast<QEventDispatcherWin32 *>(threadData->eventDispatcher)],
      absent when the pointer is null or of another class;
    - [postEventList]: queued meta-calls addressed to the notifier and not
      yet delivered;
    - [trace]: the calls made so far. *)
Record World := mkWorld {
  d_ptr : QWinEventNotifierPrivate;
  eventDispatchers : gmap ThreadId D;
  postEventList : list MetaCall;
  trace : list Call
}.

(** A member function either returns normally or the process is aborted
    (a failed [Q_ASSERT_X], or the null dereference that follows it when
    assertions are compiled out). *)
Inductive Result (A : Type) :=
| Ok (a : A) (w : World)
| Fatal (where_ what : string).
Arguments Ok {A} a w.
Arguments Fatal {A} where_ what.

Definition M (A : Type) : Type := World → Result A.

#[global] Instance M_ret : MRet M := λ A a w, Ok a w.
#[global] Instance M_bind : MBind M := λ A B f m w,
  match m w with
  | Ok a w' => f a w'
  | Fatal l r => Fatal l r
  end.

Definition get_d : M QWinEventNotifierPrivate := λ w, Ok (d_ptr w) w.

Definition set_enabled (e : bool) : M unit := λ w,
  Ok tt (mkWorld (mkPrivate (threadData (d_ptr w)) (handleToEvent (d_ptr w)) e)
                 (eventDispatchers w) (postEventList w) (trace w)).

Definition set_handleToEvent (h : HANDLE) : M unit := λ w,
  Ok tt (mkWorld (mkPrivate (threadData (d_ptr w)) h (enabled (d_ptr w)))
                 (eventDispatchers w) (postEventList w) (trace w)).

Definition set_threadData (t : ThreadId) : M unit := λ w,
  Ok tt (mkWorld (mkPrivate t (handleToEvent (d_ptr w)) (enabled (d_ptr w)))
                 (eventDispatchers w) (postEventList w) (trace w)).

Definition log (c : Call) : M unit := λ w,
  Ok tt (mkWorld (d_ptr w) (eventDispatchers w) (postEventList w) (trace w ++ [c])).

Definition abort {A} (where_ what : string) : M A := λ _, Fatal where_ what.

(** [qobject_cast<QEventDispatcherWin32 *>(d->threadData->eventDispatcher)] *)
Definition get_eventDispatcher : M (option D) := λ w,
  Ok (eventDispatchers w !! threadData (d_ptr w)) w.

(** [eventDispatcher->registerEventNotifier(this)]: the dispatcher of the
    notifier's thread is updated; the status it answers is recorded in the
    trace and, as in the source, not looked at. *)
Definition do_register (this : ObjId) (disp : D) : M unit := λ w,
  let t := threadData (d_ptr w) in
  let h := handleToEvent (d_ptr w) in
  let r := registerEventNotifier this h disp in
  Ok tt (mkWorld (d_ptr w) (<[t := r.2]> (eventDispatchers w)) (postEventList w)
                 (trace w ++ [call_registerEventNotifier t this h r.1])).

(** [eventDispatcher->unregisterEventNotifier(this)] *)
Definition do_unregister (this : ObjId) (disp : D) : M unit := λ w,
  let t := threadData (d_ptr w) in
  let h := handleToEvent (d_ptr w) in
  Ok tt (mkWorld (d_ptr w) (<[t := unregisterEventNotifier this disp]> (eventDispatchers w))
                 (postEventList w)
                 (trace w ++ [call_unregisterEventNotifier t this h])).

(** Modelled from the spec: [QMetaObject::invokeMethod(this, "setEnabled",
    Qt::QueuedConnection, Q_ARG(bool, b))] is not among the sources.  The
    call is posted, not run: it joins the notifier's queue of deferred
    actions and is executed only when that queue is delivered. *)
Definition invokeMethod_Queued (this : ObjId) (m : MetaCall) : M unit := λ w,
  Ok tt (mkWorld (d_ptr w) (eventDispatchers w) (postEventList w ++ [m])
                 (trace w ++ [call_invokeMethod_Queued this m])).

(** Modelled from the spec: the base-class handler [QObject::event] is not
    among the sources; for the event types considered here it leaves the
    notifier's fields alone. *)
Definition QObject_event (this : ObjId) (e : QEventType) : M unit :=
  log (call_QObject_event this e).

(** ** Member functions *)

(** [QWinEventNotifier::QWinEventNotifier(QObject *parent)], run on a
    thread whose data block is [td], in a process whose threads have the
    dispatchers [eds]. *)
Definition QWinEventNotifier_new (this : ObjId) (td : ThreadId) (eds : gmap ThreadId D)
  : Result unit :=
  Ok tt (mkWorld (QWinEventNotifierPrivate_default td) eds [] []).

(** [QWinEventNotifier::QWinEventNotifier(HANDLE hEvent, QObject *parent)] *)
Definition QWinEventNotifier_new_handle (this : ObjId) (hEvent : HANDLE)
    (td : ThreadId) (eds : gmap ThreadId D) : Result unit :=
  (eventDispatcher ← get_eventDispatcher;
   match eventDispatcher with
   | None =>
       abort "QWinEventNotifier::QWinEventNotifier()"
             "Cannot create a win event notifier without a QEventDispatcherWin32"
   | Some disp =>
       do_register this disp;;
       set_enabled true
   end)
  (mkWorld (QWinEventNotifierPrivate_init td hEvent false) eds [] []).

(** [void QWinEventNotifier::setEnabled(bool enable)] *)
Definition setEnabled (this : ObjId) (enable : bool) : M unit :=
  d ← get_d;
  if bool_decide (enabled d = enable) then mret tt     (* no change *)
  else
    set_enabled enable;;
    eventDispatcher ← get_eventDispatcher;
    match eventDispatcher with
    | None => mret tt                                  (* perhaps application is shutting down *)
    | Some disp =>
        if enable then do_register this disp
        else do_unregister this disp
    end.

(** The dispatcher call [setEnabled] makes, if any, as a function of the
    state it starts in. *)
Definition setEnabled_calls (this : ObjId) (enable : bool) (w : World) : list Call :=
  let d := d_ptr w in
  if bool_decide (enabled d = enable) then []
  else match eventDispatchers w !! threadData d with
       | None => []
       | Some disp =>
           if enable
           then [call_registerEventNotifier (threadData d) this (handleToEvent d)
                   (registerEventNotifier this (handleToEvent d) disp).1]
           else [call_unregisterEventNotifier (threadData d) this (handleToEvent d)]
       end.

(** The dispatchers as [setEnabled] leaves them. *)
Definition setEnabled_dispatchers (this : ObjId) (enable : bool) (w : World)
  : gmap ThreadId D :=
  let d := d_ptr w in
  if bool_decide (enabled d = enable) then eventDispatchers w
  else match eventDispatchers w !! threadData d with
       | None => eventDispatchers w
       | Some disp =>
           <[threadData d :=
               if enable then (registerEventNotifier this (handleToEvent d) disp).2
               else unregisterEventNotifier this disp]> (eventDispatchers w)
       end.

(** [QWinEventNotifier::~QWinEventNotifier()] *)
Definition QWinEventNotifier_delete (this : ObjId) : M unit :=
  setEnabled this false.

(** [void QWinEventNotifier::setHandle(HANDLE hEvent)] *)
Definition setHandle (this : ObjId) (hEvent : HANDLE) : M unit :=
  setEnabled this false;;
  set_handleToEvent hEvent.

(** [HANDLE QWinEventNotifier::handle() const] *)
Definition handle (w : World) : HANDLE := handleToEvent (d_ptr w).

(** [bool QWinEventNotifier::isEnabled() const] *)
Definition isEnabled (w : World) : bool := enabled (d_ptr w).

(** [bool QWinEventNotifier::event(QEvent *e)].  The emission of
    [activated] is recorded in the trace; the slots connected to the signal
    are application code. *)
Definition event (this : ObjId) (e : QEventType) : M bool :=
  (if bool_decide (e = ThreadChange) then
     d ← get_d;
     if enabled d then
       invokeMethod_Queued this (MC_setEnabled true);;
       setEnabled this false
     else mret tt
   else mret tt);;
  QObject_event this e;;                               (* will activate filters *)
  if bool_decide (e = WinEventAct) then
    d ← get_d;
    log (emit_activated this (handleToEvent d));;
    mret true
  else mret false.

(** ** Thread-affinity hand-off *)

(** Modelled from the spec: [QObject::moveToThread] is not among the sources.
    The notifier is told about the reassignment through a [ThreadChange]
    event, handled synchronously while it still belongs to the old thread,
    and only then is its thread data replaced. *)
Definition moveToThread (this : ObjId) (target : ThreadId) : M unit :=
  event this ThreadChange;;
  set_threadData target.

(** Running one deferred call: the slot named in it is invoked. *)
Definition invoke (this : ObjId) (m : MetaCall) : M unit :=
  match m with
  | MC_setEnabled b => setEnabled this b
  end.

Fixpoint deliver (this : ObjId) (ms : list MetaCall) : M unit :=
  match ms with
  | [] => mret tt
  | m :: ms' => invoke this m;; deliver this ms'
  end.

(** Modelled from the spec: the delivery of posted events belongs to the
    event loop, which is not among the sources.  The deferred actions
    addressed to the notifier run, oldest first, in the context the notifier
    belongs to when they are delivered. *)
Definition sendPostedEvents (this : ObjId) : M unit := λ w,
  deliver this (postEventList w)
          (mkWorld (d_ptr w) (eventDispatchers w) [] (trace w)).

(** ** Sequences of operations *)

(** What application code and the event system can do to a live notifier. *)
Inductive Op :=
| op_setHandle (hEvent : HANDLE)
| op_setEnabled (enable : bool)
| op_event (e : QEventType)
| op_moveToThread (target : ThreadId)
| op_sendPostedEvents.

Definition step (this : ObjId) (o : Op) : M unit :=
  match o with
  | op_setHandle h => setHandle this h
  | op_setEnabled b => setEnabled this b
  | op_event e => event this e;; mret tt
  | op_moveToThread t => moveToThread this t
  | op_sendPostedEvents => sendPostedEvents this
  end.

Fixpoint run (this : ObjId) (ops : list Op) : M unit :=
  match ops with
  | [] => mret tt
  | o :: ops' => step this o;; run this ops'
  end.

(** The two ways a notifier comes to life. *)
Inductive Ctor :=
| ctor_parent
| ctor_handle (hEvent : HANDLE).

Definition construct (this : ObjId) (c : Ctor) (td : ThreadId) (eds : gmap ThreadId D)
  : Result unit :=
  match c with
  | ctor_parent => QWinEventNotifier_new this td eds
  | ctor_handle h => QWinEventNotifier_new_handle this h td eds
  end.

(** Continue a finished computation. *)
Definition andThen {A B} (r : Result A) (k : M B) : Result B :=
  match r with
  | Ok _ w => k w
  | Fatal l m => Fatal l m
  end.

(** A notifier's life: construction followed by a sequence of operations. *)
Definition life (this : ObjId) (c : Ctor) (td : ThreadId) (eds : gmap ThreadId D)
    (ops : list Op) : Result unit :=
  andThen (construct this c td eds) (run this ops).

(** The world a computation ends in ([w] itself when it aborts). *)
Definition world_after {A} (m : M A) (w : World) : World :=
  match m w with
  | Ok _ w' => w'
  | Fatal _ _ => w
  end.

(** The calls a computation makes when started in [w]. *)
Definition issued {A} (m : M A) (w : World) : list Call :=
  drop (length (trace w)) (trace (world_after m w)).

(** The result of a computation, as seen by its caller. *)
Definition returned {A} (m : M A) (w : World) : option A :=
  match m w with
  | Ok a _ => Some a
  | Fatal _ _ => None
  end.

End Notifier.

Arguments World D : clear implicits.
Arguments Result D A : clear implicits.
Arguments M D A : clear implicits.
Arguments Ok {D A} a w.
Arguments Fatal {D A} where_ what.

(** ** The dispatcher's handle registry *)

(** Modelled from the spec: the platform ceiling on the number of objects
    one wait call covers, classically 64, is not among the sources. *)
Definition MAXIMUM_WAIT_OBJECTS : nat := 64.

(** Modelled from the spec: one slot of the wait set is reserved for the
    loop's own wake primitive, which leaves this many for notifiers. *)
Definition registry_capacity : nat := MAXIMUM_WAIT_OBJECTS - 1.

(** Modelled from the spec: the dispatcher's registry is not among the
    sources.  It holds at most one entry per notifier, pairing it with its
    handle.  [register] inserts or replaces the entry of the notifier, and
    refuses a new entry, reporting it, when the wait set is full;
    [unregister] removes the entry if present. *)
Definition Registry_register (n : ObjId) (h : HANDLE) (r : gmap ObjId HANDLE)
  : RegisterStatus * gmap ObjId HANDLE :=
  match r !! n with
  | Some _ => (Registered, <[n := h]> r)
  | None =>
      if decide (registry_capacity ≤ size r)%nat then (CapacityExceeded, r)
      else (Registered, <[n := h]> r)
  end.

(** Modelled from the spec: [unregister] removes the entry of the notifier
    if there is one, and does nothing otherwise. *)
Definition Registry_unregister (n : ObjId) (r : gmap ObjId HANDLE) : gmap ObjId HANDLE :=
  delete n r.

(** The modelled registry as the dispatcher the notifier talks to. *)
#[global] Instance Registry_dispatcher : QEventDispatcherWin32 (gmap ObjId HANDLE) := {|
  registerEventNotifier := Registry_register;
  unregisterEventNotifier := Registry_unregister
|}.

(** The entry the dispatcher of the notifier's thread holds for it, if any. *)
Definition registry_entry (this : ObjId) (w : World (gmap ObjId HANDLE)) : option HANDLE :=
  eventDispatchers w !! threadData (d_ptr w) ≫= (λ r, r !! this).

(** Whether the notifier is registered with the dispatcher of its thread. *)
Definition is_registered (this : ObjId) (w : World (gmap ObjId HANDLE)) : bool :=
  bool_decide (is_Some (registry_entry this w)).

(** Modelled from the spec: the wait multiplexer is not among the sources.
    The wait set is rebuilt from the registry on every iteration, one slot
    per entry, each slot remembering the notifier it belongs to. *)
Definition waitSet (r : gmap ObjId HANDLE) : list (ObjId * HANDLE) :=
  map_to_list r.

(** Modelled from the spec: notification dispatch is not among the sources.
    When the wait reports [fired], the dispatcher looks the entry up again;
    if the notifier is still registered for that handle and still enabled,
    it sends one [WinEventAct] event to it, synchronously; otherwise the
    notification is dropped. *)
Definition dispatchFired (this : ObjId) (fired : HANDLE) : M (gmap ObjId HANDLE) bool :=
  λ w,
    if bool_decide (registry_entry this w = Some fired) && isEnabled w
    then event this WinEventAct w
    else Ok false w.

(** ** Consistency between the notifier and the registries *)

(** A notifier that has just been allocated has no entry anywhere. *)
Definition fresh (this : ObjId) (eds : gmap ThreadId (gmap ObjId HANDLE)) : Prop :=
  ∀ t r, eds !! t = Some r → r !! this = None.

(** Every dispatcher can take one more notifier. *)
Definition spare_capacity (eds : gmap ThreadId (gmap ObjId HANDLE)) : Prop :=
  ∀ t r, eds !! t = Some r → (size r < registry_capacity)%nat.

(** Whatever entry a dispatcher holds for the notifier belongs to the
    dispatcher of the notifier's own thread, pairs it with the handle it
    stores, and exists only while the notifier is enabled. *)
Definition entries_sound (this : ObjId) (w : World (gmap ObjId HANDLE)) : Prop :=
  ∀ t r, eventDispatchers w !! t = Some r → is_Some (r !! this) →
    t = threadData (d_ptr w) ∧ isEnabled w = true ∧ r !! this = Some (handle w).

(** Leaving the notifier's own entry aside, no wait set is full. *)
Definition has_room (this : ObjId) (w : World (gmap ObjId HANDLE)) : Prop :=
  ∀ t r, eventDispatchers w !! t = Some r →
    (size (delete this r) < registry_capacity)%nat.

(** An enabled notifier has its entry in the dispatcher of its thread, if
    that thread has one. *)
Definition entries_complete (this : ObjId) (w : World (gmap ObjId HANDLE)) : Prop :=
  isEnabled w = true →
  ∀ r, eventDispatchers w !! threadData (d_ptr w) = Some r → r !! this = Some (handle w).

Definition consistent (this : ObjId) (w : World (gmap ObjId HANDLE)) : Prop :=
  entries_sound this w ∧ has_room this w ∧ entries_complete this w.


(** ** Reading a trace *)

Definition is_unregister (c : Call) : bool :=
  match c with call_unregisterEventNotifier _ _ _ => true | _ => false end.


(** Replaying the dispatcher calls of a trace on behalf of the notifier
    [this].  The state is [Some (t, h)] while a registration made with the
    dispatcher of thread [t], submitting handle [h], has not been taken
    back, and [None] otherwise.  The replay fails when a call names another
    notifier, when a registration follows a registration, or when an
    unregistration does not match the registration before it. *)
Fixpoint replay (this : ObjId) (st : option (ThreadId * HANDLE)) (tr : list Call)
  : option (option (ThreadId * HANDLE)) :=
  match tr with
  | [] => Some st
  | call_registerEventNotifier t n h _ :: tr' =>
      match st with
      | None => if decide (n = this) then replay this (Some (t, h)) tr' else None
      | Some _ => None
      end
  | call_unregisterEventNotifier t n h :: tr' =>
      match st with
      | Some th =>
          if decide (n = this ∧ th = (t, h)) then replay this None tr' else None
      | None => None
      end
  | _ :: tr' => replay this st tr'
  end.

(** The registration the dispatcher calls made so far should add up to:
    one with the dispatcher of the notifier's thread, for the handle it
    stores, if the notifier is enabled and that thread has a dispatcher,
    and none otherwise. *)
Definition registration_due {D : Type} (w : World D) : option (ThreadId * HANDLE) :=
  if isEnabled w
     && bool_decide (is_Some (eventDispatchers w !! threadData (d_ptr w)))
  then Some (threadData (d_ptr w), handle w)
  else None.

(** The handle a notifier ends up with: the argument of the last
    [setHandle] among the operations, or the one it started with. *)
Definition last_handle (h0 : HANDLE) (ops : list Op) : HANDLE :=
  foldl (λ h o, match o with op_setHandle h' => h' | _ => h end) h0 ops.

(** The handle a constructor stores. *)
Definition ctor_handle_of (c : Ctor) : HANDLE :=
  match c with
  | ctor_parent => 0
  | ctor_handle h => h
  end.

(** ** Example processes *)

(** A process whose thread [0] runs a loop with an empty registry. *)
Definition one_loop : gmap ThreadId (gmap ObjId HANDLE) := {[ 0%nat := ∅ ]}.

(** Threads [0] and [1] both run a loop. *)
Definition two_loops : gmap ThreadId (gmap ObjId HANDLE) :=
  {[ 0%nat := ∅; 1%nat := ∅ ]}.

(** A process in which no thread has a dispatcher (any more). *)
Definition no_loop : gmap ThreadId (gmap ObjId HANDLE) := ∅.

(** A registry holding as many notifiers as the wait set can take: the
    notifiers [2 .. 64], watching the handles [1000 .. 1062]. *)
Definition full_registry : gmap ObjId HANDLE :=
  list_to_map ((λ i, (Pos.of_nat (i + 2), 1000 + Z.of_nat i)) <$> seq 0 63).

(** Thread [0] runs a loop whose wait set is full. *)
Definition full_loop : gmap ThreadId (gmap ObjId HANDLE) := {[ 0%nat := full_registry ]}.


(** * Properties *)

Ltac monad_unfold :=
  unfold mbind, mret, M_bind, M_ret, get_d, get_eventDispatcher, set_enabled,
    set_handleToEvent, set_threadData, log, do_register, do_unregister,
    invokeMethod_Queued, QObject_event, abort in *.

Section NotifierFacts.
Context {D : Type} `{QEventDispatcherWin32 D}.
Implicit Types (w : World D) (this : positive) (b : bool) (e : QEventType).

(** [setEnabled] always returns, and its effect is the following. *)
Lemma setEnabled_eq this b w :
  setEnabled this b w =
  Ok tt (mkWorld (mkPrivate (threadData (d_ptr w)) (handleToEvent (d_ptr w)) b)
           (setEnabled_dispatchers this b w) (postEventList w)
           (trace w ++ setEnabled_calls this b w)).
Proof.
  unfold setEnabled, setEnabled_calls, setEnabled_dispatchers.
  monad_unfold. destruct w as [[td h en] eds posted tr]; simpl.
  case_bool_decide as Hb; simpl.
  - subst. by rewrite app_nil_r.
  - destruct (eds !! td) as [disp|]; simpl.
    + by destruct b.
    + by rewrite app_nil_r.
Qed.

Lemma setEnabled_same this w :
  setEnabled this (isEnabled w) w = Ok tt w.
Proof.
  rewrite setEnabled_eq. unfold setEnabled_calls, setEnabled_dispatchers, isEnabled.
  rewrite bool_decide_eq_true_2 by done. rewrite app_nil_r.
  by destruct w as [[td h en] eds posted tr].
Qed.

Lemma setEnabled_calls_length this b w :
  (length (setEnabled_calls this b w) ≤ 1)%nat.
Proof.
  unfold setEnabled_calls. case_bool_decide; simpl; [lia|].
  destruct (_ !! _); simpl; [destruct b; simpl; lia | lia].
Qed.

Lemma issued_app {A} (m : M D A) w a w' calls :
  m w = Ok a w' → trace w' = trace w ++ calls → issued m w = calls.
Proof.
  intros Hm Htr. unfold issued, world_after. rewrite Hm, Htr.
  by rewrite drop_app_length.
Qed.

Lemma issued_setEnabled this b w :
  issued (setEnabled this b) w = setEnabled_calls this b w.
Proof. eapply issued_app; [apply setEnabled_eq | done]. Qed.


Lemma event_eq this e w :
  event this e w =
  let w1 :=
    if bool_decide (e = ThreadChange) && isEnabled w then
      mkWorld (mkPrivate (threadData (d_ptr w)) (handleToEvent (d_ptr w)) false)
        (setEnabled_dispatchers this false w)
        (postEventList w ++ [MC_setEnabled true])
        (trace w ++ call_invokeMethod_Queued this (MC_setEnabled true)
                 :: setEnabled_calls this false w)
    else w in
  Ok (bool_decide (e = WinEventAct))
     (mkWorld (d_ptr w1) (eventDispatchers w1) (postEventList w1)
        (trace w1 ++ call_QObject_event this e ::
           if bool_decide (e = WinEventAct)
           then [emit_activated this (handleToEvent (d_ptr w1))] else [])).
Proof.
  unfold event, isEnabled. cbv zeta.
  destruct w as [[td h en] eds posted tr].
  destruct e as [| |code]; simpl.
  - destruct en; simpl.
    + unfold mbind at 1, M_bind at 1. unfold mbind at 1, M_bind at 1.
      unfold get_d at 1. simpl.
      unfold mbind at 1, M_bind at 1. unfold invokeMethod_Queued at 1. simpl.
      rewrite setEnabled_eq. simpl.
      monad_unfold. simpl. 
      unfold setEnabled_calls, setEnabled_dispatchers. simpl.
      by rewrite <- !app_assoc.
    + monad_unfold. simpl. done.
  - monad_unfold. simpl. by rewrite <- !app_assoc.
  - monad_unfold. simpl. done.
Qed.


Lemma run_app this (ops1 ops2 : list Op) w :
  run this (ops1 ++ ops2) w = andThen (run this ops1 w) (run this ops2).
Proof.
  revert w. induction ops1 as [|o ops1 IH]; intros w; simpl; [done|].
  unfold mbind, M_bind. destruct (step this o w) as [[] w1|]; [apply IH | done].
Qed.

Lemma run_setEnabled_total this (bs : list bool) w :
  ∃ w', run this (op_setEnabled <$> bs) w = Ok tt w'.
Proof.
  revert w. induction bs as [|b bs IH]; intros w; simpl; [by eexists|].
  unfold mbind, M_bind. rewrite setEnabled_eq. apply IH.
Qed.

(** C10: a notifier constructed with only a parent holds the null handle, is
    disabled, and its construction calls into no dispatcher. *)
Theorem new_notifier_null_and_disabled this td (eds : gmap nat D) :
  ∃ w, QWinEventNotifier_new this td eds = Ok tt w ∧
       handle w = 0 ∧ isEnabled w = false ∧
       trace w = [] ∧ eventDispatchers w = eds ∧ postEventList w = [].
Proof.
  unfold QWinEventNotifier_new, QWinEventNotifierPrivate_default.
  eexists; split; [reflexivity|]. by cbn.
Qed.

(** C9: when [setEnabled(b)] changes the state on a thread without a
    dispatcher, the flag is updated all the same: [isEnabled] then answers
    [b], nothing is registered or unregistered, and the thread still has no
    dispatcher the notifier could be registered with. *)
Theorem setEnabled_without_dispatcher_sets_flag this b w :
  isEnabled w ≠ b →
  eventDispatchers w !! threadData (d_ptr w) = None →
  ∃ w', setEnabled this b w = Ok tt w' ∧
        isEnabled w' = b ∧
        issued (setEnabled this b) w = [] ∧
        eventDispatchers w' = eventDispatchers w ∧
        eventDispatchers w' !! threadData (d_ptr w') = None.
Proof.
  intros Hne Hnone. eexists. split; [apply setEnabled_eq|].
  rewrite issued_setEnabled.
  unfold setEnabled_calls, setEnabled_dispatchers, isEnabled in *; cbn.
  rewrite bool_decide_eq_false_2 by done. by rewrite Hnone.
Qed.

(** C6: on a thread whose dispatcher is gone, [setEnabled] returns normally,
    makes no call at all, posts nothing, and leaves every dispatcher as it
    was.  (The enabled flag itself is still written.) *)
Theorem setEnabled_silent_without_dispatcher this b w :
  eventDispatchers w !! threadData (d_ptr w) = None →
  ∃ w', setEnabled this b w = Ok tt w' ∧
        returned (setEnabled this b) w = Some tt ∧
        issued (setEnabled this b) w = [] ∧
        eventDispatchers w' = eventDispatchers w ∧
        postEventList w' = postEventList w ∧
        handle w' = handle w.
Proof.
  intros Hnone. eexists. split; [apply setEnabled_eq|].
  unfold returned. rewrite issued_setEnabled, setEnabled_eq.
  unfold setEnabled_calls, setEnabled_dispatchers; cbn.
  rewrite Hnone. by case_bool_decide.
Qed.

(** Whatever the dispatcher answers to a registration, [setEnabled(true)]
    returns normally with the flag set; the answer only shows in the trace. *)
Lemma setEnabled_ignores_answer this w disp :
  isEnabled w = false →
  eventDispatchers w !! threadData (d_ptr w) = Some disp →
  ∃ w', setEnabled this true w = Ok tt w' ∧
        returned (setEnabled this true) w = Some tt ∧
        isEnabled w' = true ∧
        eventDispatchers w' =
          <[threadData (d_ptr w) := (registerEventNotifier this (handle w) disp).2]>
            (eventDispatchers w) ∧
        issued (setEnabled this true) w =
          [call_registerEventNotifier (threadData (d_ptr w)) this (handle w)
             (registerEventNotifier this (handle w) disp).1].
Proof.
  intros Hen Hd. eexists. split; [apply setEnabled_eq|].
  unfold returned. rewrite issued_setEnabled, setEnabled_eq.
  unfold setEnabled_calls, setEnabled_dispatchers, isEnabled, handle in *; cbn.
  rewrite Hen, Hd. by rewrite bool_decide_eq_false_2 by done.
Qed.

(** C5 (amended): on a thread without a dispatcher, constructing a notifier
    with a handle is fatal, whereas [setEnabled(true)] is not: it sets the
    flag and returns without calling anything. *)
Theorem enabling_without_dispatcher this hEvent td (eds : gmap nat D) w :
  eds !! td = None →
  eventDispatchers w !! threadData (d_ptr w) = None →
  QWinEventNotifier_new_handle this hEvent td eds =
    Fatal "QWinEventNotifier::QWinEventNotifier()"
          "Cannot create a win event notifier without a QEventDispatcherWin32" ∧
  ∃ w', setEnabled this true w = Ok tt w' ∧
        isEnabled w' = true ∧
        issued (setEnabled this true) w = [].
Proof.
  intros Heds Hnone. split.
  - unfold QWinEventNotifier_new_handle, QWinEventNotifierPrivate_init.
    monad_unfold. cbn. by rewrite Heds.
  - eexists. split; [apply setEnabled_eq|]. split; [done|].
    rewrite issued_setEnabled. unfold setEnabled_calls. rewrite Hnone.
    by case_bool_decide.
Qed.

(** C2 (amended): [setEnabled(b)] always returns and leaves [isEnabled()]
    equal to [b], also at the end of any sequence of calls; a call that asks
    for the state the notifier is already in changes nothing at all; and two
    [setEnabled(true)] calls in a row issue the calls a single one issues:
    the second registers nothing, and the pair registers once exactly when
    the notifier was disabled on a thread that has a dispatcher, and not at
    all otherwise. *)
Theorem setEnabled_idempotent this b w :
  (∃ w', setEnabled this b w = Ok tt w' ∧ isEnabled w' = b) ∧
  setEnabled this (isEnabled w) w = Ok tt w ∧
  (∀ bs : list bool, ∃ w',
      run this (op_setEnabled <$> (bs ++ [b])) w = Ok tt w' ∧ isEnabled w' = b) ∧
  issued (setEnabled this true;; setEnabled this true) w
    = issued (setEnabled this true) w ∧
  count is_register (issued (setEnabled this true;; setEnabled this true) w)
    = (if negb (isEnabled w)
          && bool_decide (is_Some (eventDispatchers w !! threadData (d_ptr w)))
       then 1 else 0)%nat.
Proof.
  assert (Htwice : issued (setEnabled this true;; setEnabled this true) w
                   = setEnabled_calls this true w).
  { eapply issued_app.
    - unfold mbind, M_bind. rewrite setEnabled_eq.
      change true with (isEnabled (mkWorld
        (mkPrivate (threadData (d_ptr w)) (handleToEvent (d_ptr w)) true)
        (setEnabled_dispatchers this true w) (postEventList w)
        (trace w ++ setEnabled_calls this true w))) at 1.
      apply setEnabled_same.
    - done. }
  split; [|split; [|split; [|split]]].
  - eexists. split; [apply setEnabled_eq | done].
  - apply setEnabled_same.
  - intros bs. rewrite fmap_app, run_app.
    destruct (run_setEnabled_total this bs w) as [w1 ->]. cbn.
    unfold mbind, M_bind. rewrite setEnabled_eq. by eexists.
  - by rewrite Htwice, issued_setEnabled.
  - rewrite Htwice. unfold setEnabled_calls, isEnabled.
    destruct (enabled (d_ptr w));
      [rewrite bool_decide_eq_true_2 by done
      |rewrite bool_decide_eq_false_2 by done]; cbn; [done|].
    by destruct (eventDispatchers w !! threadData (d_ptr w)).
Qed.


Lemma event_ThreadChange_enabled this w :
  isEnabled w = true →
  event this ThreadChange w =
  Ok false (mkWorld (mkPrivate (threadData (d_ptr w)) (handleToEvent (d_ptr w)) false)
              (setEnabled_dispatchers this false w)
              (postEventList w ++ [MC_setEnabled true])
              (trace w ++ [call_invokeMethod_Queued this (MC_setEnabled true)]
                 ++ setEnabled_calls this false w
                 ++ [call_QObject_event this ThreadChange])).
Proof.
  intros Hen. rewrite event_eq. rewrite Hen. simpl.
  by rewrite <- !app_assoc.
Qed.

Lemma event_ThreadChange_disabled this w :
  isEnabled w = false →
  event this ThreadChange w =
  Ok false (mkWorld (d_ptr w) (eventDispatchers w) (postEventList w)
              (trace w ++ [call_QObject_event this ThreadChange])).
Proof. intros Hen. rewrite event_eq. by rewrite Hen. Qed.

Lemma event_WinEventAct this w :
  event this WinEventAct w =
  Ok true (mkWorld (d_ptr w) (eventDispatchers w) (postEventList w)
             (trace w ++ [call_QObject_event this WinEventAct;
                          emit_activated this (handleToEvent (d_ptr w))])).
Proof. by rewrite event_eq. Qed.

Lemma event_Other this code w :
  event this (OtherEvent code) w =
  Ok false (mkWorld (d_ptr w) (eventDispatchers w) (postEventList w)
              (trace w ++ [call_QObject_event this (OtherEvent code)])).
Proof. by rewrite event_eq. Qed.

(** C1: handling [ThreadChange] always returns [false].  If the notifier is
    enabled, the handler posts [setEnabled(true)] as a queued call and
    disables the notifier at once: on return the flag is [false], the
    dispatcher of the old thread (when there is one) has been told to
    unregister it, the re-enabling call sits in the queue of deferred
    actions, and no registration has been made.  If the notifier is
    disabled, nothing is posted and nothing is unregistered. *)
Theorem ThreadChange_disables_and_defers this w :
  ∃ w', event this ThreadChange w = Ok false w' ∧
    let d := d_ptr w in
    if isEnabled w then
      isEnabled w' = false ∧
      handle w' = handle w ∧
      threadData (d_ptr w') = threadData d ∧
      postEventList w' = postEventList w ++ [MC_setEnabled true] ∧
      issued (event this ThreadChange) w =
        [call_invokeMethod_Queued this (MC_setEnabled true)]
        ++ match eventDispatchers w !! threadData d with
           | Some _ => [call_unregisterEventNotifier (threadData d) this (handleToEvent d)]
           | None => []
           end
        ++ [call_QObject_event this ThreadChange] ∧
      eventDispatchers w' =
        match eventDispatchers w !! threadData d with
        | Some disp => <[threadData d := unregisterEventNotifier this disp]> (eventDispatchers w)
        | None => eventDispatchers w
        end ∧
      count is_register (issued (event this ThreadChange) w) = 0%nat
    else
      d_ptr w' = d ∧
      postEventList w' = postEventList w ∧
      eventDispatchers w' = eventDispatchers w ∧
      issued (event this ThreadChange) w = [call_QObject_event this ThreadChange].
Proof.
  destruct (isEnabled w) eqn:Hen.
  - eexists. split; [by apply event_ThreadChange_enabled|]. cbv zeta.
    erewrite (issued_app (event this ThreadChange) w);
      [| by apply event_ThreadChange_enabled | reflexivity].
    unfold setEnabled_calls, setEnabled_dispatchers, isEnabled, handle in *.
    rewrite Hen; cbn.
    by destruct (eventDispatchers w !! threadData (d_ptr w)).
  - eexists. split; [by apply event_ThreadChange_disabled|]. cbv zeta.
    erewrite (issued_app (event this ThreadChange) w);
      [| by apply event_ThreadChange_disabled | reflexivity].
    done.
Qed.

(** C7: [setHandle(h)] always returns; afterwards the notifier is disabled
    and [handle()] answers [h].  If the notifier was enabled and its thread
    has a dispatcher, that dispatcher is told to unregister it while the
    notifier still holds the old handle; the new handle is stored after
    that.  Nothing is registered and no re-enabling call is posted. *)
Theorem setHandle_disables_then_stores this hEvent w :
  ∃ w', setHandle this hEvent w = Ok tt w' ∧
    let d := d_ptr w in
    isEnabled w' = false ∧
    handle w' = hEvent ∧
    threadData (d_ptr w') = threadData d ∧
    postEventList w' = postEventList w ∧
    issued (setHandle this hEvent) w =
      (if isEnabled w then
         match eventDispatchers w !! threadData d with
         | Some _ => [call_unregisterEventNotifier (threadData d) this (handleToEvent d)]
         | None => []
         end
       else []) ∧
    eventDispatchers w' =
      (if isEnabled w then
         match eventDispatchers w !! threadData d with
         | Some disp => <[threadData d := unregisterEventNotifier this disp]> (eventDispatchers w)
         | None => eventDispatchers w
         end
       else eventDispatchers w) ∧
    count is_register (issued (setHandle this hEvent) w) = 0%nat ∧
    count is_queued (issued (setHandle this hEvent) w) = 0%nat.
Proof.
  assert (Heq : setHandle this hEvent w =
     Ok tt (mkWorld (mkPrivate (threadData (d_ptr w)) hEvent false)
              (setEnabled_dispatchers this false w) (postEventList w)
              (trace w ++ setEnabled_calls this false w))).
  { unfold setHandle, mbind, M_bind. by rewrite setEnabled_eq. }
  eexists. split; [exact Heq|]. cbv zeta.
  erewrite (issued_app (setHandle this hEvent) w); [| exact Heq | reflexivity].
  unfold isEnabled, setEnabled_calls, setEnabled_dispatchers, handle; cbn.
  destruct (enabled (d_ptr w)); cbn; [|done].
  by destruct (eventDispatchers w !! threadData (d_ptr w)).
Qed.

End NotifierFacts.

(** ** Invariants of a notifier's life

    Every operation is built from [setEnabled], from writes to the handle or
    to the thread data that happen only while the notifier is disabled, and
    from changes to the trace and to the queue of deferred calls.  A
    property of worlds stable under these three is therefore stable under
    every sequence of operations, and every sequence runs to completion. *)

Section InvariantRule.
Context {D : Type} `{QEventDispatcherWin32 D}.
Variable this : positive.
Variable P : World D → Prop.
Hypothesis P_setEnabled :
  ∀ b w w', P w → setEnabled this b w = Ok tt w' → P w'.
Hypothesis P_frame :
  ∀ w posted tr, P w → P (mkWorld (d_ptr w) (eventDispatchers w) posted tr).
Hypothesis P_rebind :
  ∀ w t h, P w → isEnabled w = false →
    P (mkWorld (mkPrivate t h false) (eventDispatchers w) (postEventList w) (trace w)).

Lemma setEnabled_preserves b w :
  P w → ∃ w', setEnabled this b w = Ok tt w' ∧ P w' ∧ isEnabled w' = b.
Proof.
  intros HP. eexists. split; [apply setEnabled_eq|]. split; [|done].
  eapply P_setEnabled; [exact HP | apply setEnabled_eq].
Qed.

Lemma setHandle_preserves h w :
  P w → ∃ w', setHandle this h w = Ok tt w' ∧ P w' ∧ isEnabled w' = false.
Proof.
  intros HP. destruct (setEnabled_preserves false w HP) as (w1 & Hw1 & HP1 & Hen1).
  unfold setHandle, mbind, M_bind. rewrite Hw1.
  eexists. split; [reflexivity|]. split; [|exact Hen1].
  unfold isEnabled in Hen1. rewrite Hen1.
  by apply (P_rebind w1 (threadData (d_ptr w1)) h).
Qed.

Lemma event_preserves e w :
  P w → ∃ r w', event this e w = Ok r w' ∧ P w' ∧
                (e = ThreadChange → isEnabled w' = false).
Proof.
  intros HP. destruct e as [| |code].
  - destruct (isEnabled w) eqn:Hen.
    + rewrite event_ThreadChange_enabled by done.
      do 2 eexists. split; [reflexivity|]. split; [|done].
      destruct (setEnabled_preserves false w HP) as (w1 & Hw1 & HP1 & _).
      rewrite setEnabled_eq in Hw1. injection Hw1 as <-.
      apply (P_frame _ (postEventList w ++ [MC_setEnabled true])
               (trace w ++ [call_invokeMethod_Queued this (MC_setEnabled true)]
                  ++ setEnabled_calls this false w
                  ++ [call_QObject_event this ThreadChange])) in HP1.
      exact HP1.
    + rewrite event_ThreadChange_disabled by done.
      do 2 eexists. split; [reflexivity|]. split; [by apply P_frame | done].
  - rewrite event_WinEventAct. do 2 eexists.
    split; [reflexivity|]. split; [by apply P_frame | done].
  - rewrite event_Other. do 2 eexists.
    split; [reflexivity|]. split; [by apply P_frame | done].
Qed.

Lemma moveToThread_preserves t w :
  P w → ∃ w', moveToThread this t w = Ok tt w' ∧ P w' ∧
              threadData (d_ptr w') = t ∧ isEnabled w' = false.
Proof.
  intros HP. destruct (event_preserves ThreadChange w HP) as (r & w1 & Hw1 & HP1 & Hen1).
  specialize (Hen1 eq_refl).
  unfold moveToThread, mbind, M_bind. rewrite Hw1.
  eexists. split; [reflexivity|]. unfold isEnabled in Hen1. rewrite Hen1.
  split; [|done]. by apply (P_rebind w1 t (handleToEvent (d_ptr w1))).
Qed.

Lemma deliver_preserves ms w :
  P w → ∃ w', deliver this ms w = Ok tt w' ∧ P w'.
Proof.
  revert w. induction ms as [|[b] ms IH]; intros w HP; cbn.
  - by eexists.
  - destruct (setEnabled_preserves b w HP) as (w1 & Hw1 & HP1 & _).
    unfold mbind, M_bind. rewrite Hw1. by apply IH.
Qed.

Lemma step_preserves o w :
  P w → ∃ w', step this o w = Ok tt w' ∧ P w'.
Proof.
  intros HP. destruct o as [h|b|e|t|]; cbn.
  - destruct (setHandle_preserves h w HP) as (w' & ? & ? & _); eauto.
  - destruct (setEnabled_preserves b w HP) as (w' & ? & ? & _); eauto.
  - destruct (event_preserves e w HP) as (r & w' & Hw' & ? & _).
    unfold mbind, M_bind. rewrite Hw'. eauto.
  - destruct (moveToThread_preserves t w HP) as (w' & ? & ? & _); eauto.
  - unfold sendPostedEvents. apply deliver_preserves. by apply P_frame.
Qed.

Lemma run_preserves ops w :
  P w → ∃ w', run this ops w = Ok tt w' ∧ P w'.
Proof.
  revert w. induction ops as [|o ops IH]; intros w HP; cbn.
  - by eexists.
  - destruct (step_preserves o w HP) as (w1 & Hw1 & HP1).
    unfold mbind, M_bind. rewrite Hw1. by apply IH.
Qed.

End InvariantRule.

(** ** The notifier against the modelled registry *)

Section RegistryFacts.
Implicit Types (w : World (gmap positive Z)) (this : positive) (b : bool).

Lemma Registry_register_lookup this h (r : gmap positive Z) :
  r !! this = None →
  (Registry_register this h r).2 !! this =
    if decide (registry_capacity ≤ size r)%nat then None else Some h.
Proof.
  intros Hr. unfold Registry_register. rewrite Hr.
  case_decide; cbn; [done | by rewrite lookup_insert_eq].
Qed.

Lemma Registry_register_others this h (r : gmap positive Z) :
  delete this (Registry_register this h r).2 = delete this r.
Proof.
  unfold Registry_register.
  destruct (r !! this); [|case_decide]; cbn; by rewrite ?delete_insert_eq.
Qed.

Lemma registered_means_enabled this w t r :
  entries_sound this w → eventDispatchers w !! t = Some r →
  isEnabled w = false → r !! this = None.
Proof.
  intros Hs Ht Hen. destruct (r !! this) as [h|] eqn:Hr; [|done].
  destruct (Hs t r Ht) as (_ & Hen' & _); [by rewrite Hr|]. congruence.
Qed.

Lemma entries_sound_setEnabled this b w w' :
  entries_sound this w → setEnabled this b w = Ok tt w' → entries_sound this w'.
Proof.
  intros Hs. rewrite setEnabled_eq. intros [= <-].
  unfold setEnabled_dispatchers. case_bool_decide as Hb.
  { intros t r Ht Hr. cbn in *. destruct (Hs t r Ht Hr) as (-> & Hen & Hl).
    unfold isEnabled, handle in *; cbn. by rewrite <- Hb. }
  destruct (eventDispatchers w !! threadData (d_ptr w)) as [disp|] eqn:Hd.
  - intros t r Ht Hr; cbn in *. destruct (decide (t = threadData (d_ptr w))) as [->|Hne].
    + rewrite lookup_insert_eq in Ht. injection Ht as <-.
      destruct b.
      * cbn in Hr |- *.
        assert (disp !! this = None) as Hnone.
        { eapply registered_means_enabled; [done..|].
          unfold isEnabled. by destruct (enabled (d_ptr w)). }
        rewrite Registry_register_lookup in Hr |- * by done.
        case_decide; [by destruct Hr as [? [=]] | done].
      * cbn in Hr. unfold Registry_unregister in Hr.
        rewrite lookup_delete_eq in Hr. by destruct Hr as [? [=]].
    + rewrite lookup_insert_ne in Ht by done.
      destruct (Hs t r Ht Hr) as (-> & _); done.
  - intros t r Ht Hr; cbn in *. destruct (Hs t r Ht Hr) as (-> & _). congruence.
Qed.

Lemma entries_sound_frame this w posted tr :
  entries_sound this w →
  entries_sound this (mkWorld (d_ptr w) (eventDispatchers w) posted tr).
Proof. done. Qed.

Lemma entries_sound_rebind this w t h :
  entries_sound this w → isEnabled w = false →
  entries_sound this
    (mkWorld (mkPrivate t h false) (eventDispatchers w) (postEventList w) (trace w)).
Proof.
  intros Hs Hen t' r Ht Hr; cbn in *.
  destruct (Hs t' r Ht Hr) as (_ & Hen' & _). congruence.
Qed.

Lemma consistent_setEnabled this b w w' :
  consistent this w → setEnabled this b w = Ok tt w' → consistent this w'.
Proof.
  intros (Hs & Hroom & Hc) Hw'. split; [by eapply entries_sound_setEnabled|].
  revert Hw'. rewrite setEnabled_eq. intros [= <-].
  unfold has_room, entries_complete, setEnabled_dispatchers, isEnabled, handle in *.
  cbn. case_bool_decide as Hb.
  { split; [done|]. intros ->. by apply Hc. }
  destruct (eventDispatchers w !! threadData (d_ptr w)) as [disp|] eqn:Hd.
  - split.
    + intros t r Ht. destruct (decide (t = threadData (d_ptr w))) as [->|Hne].
      * rewrite lookup_insert_eq in Ht. injection Ht as <-.
        destruct b; cbn.
        -- rewrite Registry_register_others. by eapply Hroom.
        -- unfold Registry_unregister. rewrite delete_delete_eq. by eapply Hroom.
      * rewrite lookup_insert_ne in Ht by done. by eapply Hroom.
    + intros -> r. rewrite lookup_insert_eq. intros [= <-]. cbn.
      assert (disp !! this = None) as Hnone.
      { eapply registered_means_enabled; [done..|].
        unfold isEnabled. by destruct (enabled (d_ptr w)). }
      rewrite Registry_register_lookup by done.
      specialize (Hroom _ _ Hd). rewrite delete_id in Hroom by done.
      case_decide; [lia | done].
  - split; [done|]. intros -> r Hr. congruence.
Qed.

Lemma consistent_frame this w posted tr :
  consistent this w →
  consistent this (mkWorld (d_ptr w) (eventDispatchers w) posted tr).
Proof. done. Qed.

Lemma consistent_rebind this w t h :
  consistent this w → isEnabled w = false →
  consistent this
    (mkWorld (mkPrivate t h false) (eventDispatchers w) (postEventList w) (trace w)).
Proof.
  intros (Hs & Hroom & Hc) Hen. split; [by apply entries_sound_rebind|].
  split; [done|]. intros [=].
Qed.

(** Disabling an enabled notifier leaves no entry for it in the registry of
    its thread; so do [setHandle] and the handling of [ThreadChange]. *)
Lemma disabling_removes_entry this w w' :
  isEnabled w = true → setEnabled this false w = Ok tt w' →
  registry_entry this w' = None.
Proof.
  intros Hen. rewrite setEnabled_eq. intros [= <-].
  unfold registry_entry, setEnabled_dispatchers, isEnabled in *; cbn.
  rewrite Hen, bool_decide_eq_false_2 by done.
  destruct (eventDispatchers w !! threadData (d_ptr w)) as [r|] eqn:Hr; cbn.
  - rewrite lookup_insert_eq. cbn. unfold Registry_unregister.
    apply lookup_delete_eq.
  - by rewrite Hr.
Qed.

Lemma setHandle_removes_entry this h w w' :
  isEnabled w = true → setHandle this h w = Ok tt w' →
  registry_entry this w' = None ∧ handle w' = h.
Proof.
  intros Hen. unfold setHandle, mbind, M_bind.
  destruct (setEnabled this false w) as [[] w1|] eqn:Hw1; [|done].
  intros [= <-]. split; [|done].
  by apply (disabling_removes_entry this w w1).
Qed.

Lemma ThreadChange_removes_entry this w r w' :
  isEnabled w = true → event this ThreadChange w = Ok r w' →
  registry_entry this w' = None.
Proof.
  intros Hen. rewrite event_ThreadChange_enabled by done. intros [= _ <-].
  pose proof (disabling_removes_entry this w _ Hen (setEnabled_eq this false w)) as Hrem.
  exact Hrem.
Qed.

Lemma new_handle_as_setEnabled this hEvent td
    (eds : gmap nat (gmap positive Z)) disp :
  eds !! td = Some disp →
  QWinEventNotifier_new_handle this hEvent td eds =
  setEnabled this true (mkWorld (QWinEventNotifierPrivate_init td hEvent false) eds [] []).
Proof.
  intros Hd. rewrite setEnabled_eq.
  unfold QWinEventNotifier_new_handle, setEnabled_calls, setEnabled_dispatchers.
  monad_unfold. cbn. by rewrite Hd.
Qed.

Lemma initial_consistent this td h (eds : gmap nat (gmap positive Z)) :
  fresh this eds → spare_capacity eds →
  consistent this (mkWorld (mkPrivate td h false) eds [] []).
Proof.
  intros Hf Hsp. split; [|split].
  - intros t r Ht [x Hx]; cbn in *. by rewrite (Hf t r Ht) in Hx.
  - intros t r Ht; cbn in *. rewrite delete_id by by eapply Hf. by eapply Hsp.
  - intros [=].
Qed.

Lemma initial_sound this td h (eds : gmap nat (gmap positive Z)) :
  fresh this eds → entries_sound this (mkWorld (mkPrivate td h false) eds [] []).
Proof. intros Hf t r Ht [x Hx]; cbn in *. by rewrite (Hf t r Ht) in Hx. Qed.

(** Construction aborts only through the assertion of the handle-taking
    constructor; otherwise it ends in a world reached from a disabled
    notifier by at most one [setEnabled(true)]. *)
Lemma construct_cases this c td (eds : gmap nat (gmap positive Z)) w :
  construct this c td eds = Ok tt w →
  ∃ h w0, w0 = mkWorld (mkPrivate td h false) eds [] [] ∧
          (w = w0 ∨ setEnabled this true w0 = Ok tt w).
Proof.
  destruct c as [|h]; cbn.
  - intros [= <-]. exists 0, (mkWorld (mkPrivate td 0 false) eds [] []). eauto.
  - destruct (eds !! td) as [disp|] eqn:Hd.
    + rewrite (new_handle_as_setEnabled _ _ _ _ _ Hd). intros Hw.
      exists h, (mkWorld (mkPrivate td h false) eds [] []). eauto.
    + unfold QWinEventNotifier_new_handle. monad_unfold. cbn. by rewrite Hd.
Qed.

Lemma life_inv (P : World (gmap positive Z) → Prop) this c td eds ops w :
  (∀ b w w', P w → setEnabled this b w = Ok tt w' → P w') →
  (∀ w posted tr, P w → P (mkWorld (d_ptr w) (eventDispatchers w) posted tr)) →
  (∀ w t h, P w → isEnabled w = false →
     P (mkWorld (mkPrivate t h false) (eventDispatchers w) (postEventList w) (trace w))) →
  (∀ h, P (mkWorld (mkPrivate td h false) eds [] [])) →
  life this c td eds ops = Ok tt w → P w.
Proof.
  intros Hse Hfr Hrb Hinit. unfold life.
  destruct (construct this c td eds) as [[] w1|] eqn:Hc; [|done]. cbn.
  destruct (construct_cases _ _ _ _ _ Hc) as (h & w0 & -> & Hw1).
  assert (P w1) as HP1.
  { destruct Hw1 as [->|Hw1]; [apply Hinit | eapply Hse; [apply Hinit | exact Hw1]]. }
  destruct (run_preserves this P Hse Hfr Hrb ops w1 HP1) as (w' & Hrun & HP').
  rewrite Hrun. by intros [= <-].
Qed.

Lemma life_sound this c td eds ops w :
  fresh this eds → life this c td eds ops = Ok tt w → entries_sound this w.
Proof.
  intros Hf. apply (life_inv (entries_sound this)).
  - apply entries_sound_setEnabled.
  - apply entries_sound_frame.
  - apply entries_sound_rebind.
  - intros h. by apply initial_sound.
Qed.

Lemma life_consistent this c td eds ops w :
  fresh this eds → spare_capacity eds →
  life this c td eds ops = Ok tt w → consistent this w.
Proof.
  intros Hf Hsp. apply (life_inv (consistent this)).
  - apply consistent_setEnabled.
  - apply consistent_frame.
  - apply consistent_rebind.
  - intros h. by apply initial_consistent.
Qed.

Lemma is_registered_true this w :
  is_registered this w = true ↔
  ∃ r h, eventDispatchers w !! threadData (d_ptr w) = Some r ∧ r !! this = Some h.
Proof.
  unfold is_registered, registry_entry. rewrite bool_decide_eq_true.
  destruct (eventDispatchers w !! threadData (d_ptr w)) as [r|]; cbn.
  - split; [intros [h Hh]; eauto | intros (r' & h & [= <-] & Hh); eauto].
  - split; [intros [? [=]] | intros (? & ? & [=] & _)].
Qed.

Lemma consistent_registered_iff this w :
  consistent this w →
  is_registered this w = true ↔
  isEnabled w = true ∧ is_Some (eventDispatchers w !! threadData (d_ptr w)).
Proof.
  intros (Hs & _ & Hc). rewrite is_registered_true. split.
  - intros (r & h & Hr & Hh). split; [|by eexists].
    destruct (Hs _ _ Hr) as (_ & ? & _); [by eexists | done].
  - intros (Hen & r & Hr). exists r, (handle w). split; [done|]. by apply Hc.
Qed.

(** A notifier's life comes to an end in a world unless the handle-taking
    constructor finds no dispatcher. *)
Lemma life_returns this c td (eds : gmap nat (gmap positive Z)) ops :
  c = ctor_parent ∨ is_Some (eds !! td) →
  ∃ w, life this c td eds ops = Ok tt w.
Proof.
  intros Hc. unfold life.
  assert (∃ w1, construct this c td eds = Ok tt w1) as [w1 ->].
  { destruct c as [|h]; cbn; [by eexists|].
    destruct Hc as [[=]|[disp Hd]].
    rewrite (new_handle_as_setEnabled _ _ _ _ _ Hd), setEnabled_eq. by eexists. }
  cbn. destruct (run_preserves this (λ _, True) (λ _ _ _ _ _, I) (λ _ _ _ _, I)
                   (λ _ _ _ _ _, I) ops w1 I) as (w & -> & _).
  by eexists.
Qed.

(** C4 (amended): after construction and any sequence of operations, in a
    process whose dispatchers have room for one more notifier, the notifier
    is registered with the dispatcher of its thread if and only if its
    enabled flag is true and its thread has a dispatcher, and it then
    occupies a slot of that dispatcher's wait set.  No other dispatcher
    holds an entry for it, the entry pairs it with the handle it stores,
    whatever that handle is, and destruction leaves it disabled and
    unregistered. *)
Theorem registered_iff_enabled_with_dispatcher this c td eds ops w :
  fresh this eds → spare_capacity eds →
  life this c td eds ops = Ok tt w →
  (is_registered this w = true ↔
     isEnabled w = true ∧ is_Some (eventDispatchers w !! threadData (d_ptr w))) ∧
  (∀ t r, eventDispatchers w !! t = Some r → is_Some (r !! this) →
     t = threadData (d_ptr w)) ∧
  (∀ h, registry_entry this w = Some h → h = handle w) ∧
  (∀ r, eventDispatchers w !! threadData (d_ptr w) = Some r →
     (this, handle w) ∈ waitSet r ↔ isEnabled w = true) ∧
  (∃ w', QWinEventNotifier_delete this w = Ok tt w' ∧
         isEnabled w' = false ∧ is_registered this w' = false).
Proof.
  intros Hf Hsp Hlife.
  pose proof (life_consistent _ _ _ _ _ _ Hf Hsp Hlife) as Hcons.
  split; [by apply consistent_registered_iff|].
  destruct Hcons as (Hs & Hroom & Hc). split; [|split; [|split]].
  - intros t r Ht Hr. by destruct (Hs t r Ht Hr).
  - intros h. unfold registry_entry.
    destruct (eventDispatchers w !! threadData (d_ptr w)) as [r|] eqn:Hr; [|done].
    cbn. intros Hh. destruct (Hs _ _ Hr) as (_ & _ & Hh'); [by eexists|]. congruence.
  - intros r Hr. unfold waitSet. rewrite elem_of_map_to_list. split.
    + intros Hh. destruct (Hs _ _ Hr) as (_ & ? & _); [by eexists | done].
    + intros Hen. by apply Hc.
  - unfold QWinEventNotifier_delete. eexists. split; [apply setEnabled_eq|].
    split; [done|].
    assert (consistent this (world_after (setEnabled this false) w)) as Hcons'.
    { eapply (consistent_setEnabled this false w);
        [exact (conj Hs (conj Hroom Hc))|].
      unfold world_after. by rewrite !setEnabled_eq. }
    unfold world_after in Hcons'. rewrite setEnabled_eq in Hcons'.
    apply consistent_registered_iff in Hcons'.
    destruct (is_registered this _) eqn:Hreg; [|done].
    by destruct (proj1 Hcons' eq_refl) as [[=] _].
Qed.

(** C3: a [WinEventAct] event handed to the notifier makes it emit
    [activated] exactly once, during the call, with the handle it stores as
    the only argument, and return [true].  When the dispatcher resolves a
    fired handle, it hands that event over only if the notifier's entry for
    the handle is still present and the notifier is still enabled; the
    notification then carries the fired handle.  Otherwise nothing is
    emitted. *)
Theorem fired_handle_notifies_once this c td eds ops w fired :
  fresh this eds →
  life this c td eds ops = Ok tt w →
  (∃ w', event this WinEventAct w = Ok true w' ∧
         issued (event this WinEventAct) w =
           [call_QObject_event this WinEventAct; emit_activated this (handle w)] ∧
         d_ptr w' = d_ptr w ∧ eventDispatchers w' = eventDispatchers w ∧
         postEventList w' = postEventList w) ∧
  (registry_entry this w = Some fired ∧ isEnabled w = true →
   ∃ w', dispatchFired this fired w = Ok true w' ∧
         issued (dispatchFired this fired) w =
           [call_QObject_event this WinEventAct; emit_activated this fired] ∧
         count is_activated (issued (dispatchFired this fired) w) = 1%nat ∧
         postEventList w' = postEventList w) ∧
  (¬ (registry_entry this w = Some fired ∧ isEnabled w = true) →
   dispatchFired this fired w = Ok false w ∧
   issued (dispatchFired this fired) w = []).
Proof.
  intros Hf Hlife. pose proof (life_sound _ _ _ _ _ _ Hf Hlife) as Hs.
  split; [|split].
  - eexists. split; [apply event_WinEventAct|].
    erewrite issued_app; [| apply event_WinEventAct | reflexivity]. done.
  - intros [Hentry Hen].
    assert (handle w = fired) as Hh.
    { unfold registry_entry in Hentry.
      destruct (eventDispatchers w !! threadData (d_ptr w)) as [r|] eqn:Hr; [|done].
      cbn in Hentry. destruct (Hs _ _ Hr) as (_ & _ & Hh'); [by eexists|]. congruence. }
    assert (dispatchFired this fired w = event this WinEventAct w) as Hd.
    { unfold dispatchFired. rewrite bool_decide_eq_true_2 by done. by rewrite Hen. }
    eexists. split; [rewrite Hd; apply event_WinEventAct|].
    erewrite issued_app; [| rewrite Hd; apply event_WinEventAct | reflexivity].
    unfold handle in Hh. rewrite Hh. done.
  - intros Hnot.
    assert (dispatchFired this fired w = Ok false w) as Hd.
    { unfold dispatchFired. case_bool_decide as Hb; [|done].
      destruct (isEnabled w) eqn:Hen; [|done]. by destruct Hnot. }
    split; [done|]. unfold issued, world_after. rewrite Hd.
    by rewrite drop_all.
Qed.

(** C8 (amended): when the wait set of the thread's dispatcher is full, the
    dispatcher refuses the new entry and answers [CapacityExceeded] to
    [setEnabled], which does not look at the answer: the call returns
    normally, [isEnabled()] is [true], and the notifier is not registered.
    The handle-taking constructor behaves alike. *)
Theorem capacity_error_is_discarded this td h posted tr eds (r : gmap positive Z) :
  eds !! td = Some r → r !! this = None → (registry_capacity ≤ size r)%nat →
  let w := mkWorld (mkPrivate td h false) eds posted tr in
  registerEventNotifier this h r = (CapacityExceeded, r) ∧
  (∃ w', setEnabled this true w = Ok tt w' ∧
         returned (setEnabled this true) w = Some tt ∧
         isEnabled w' = true ∧
         is_registered this w' = false ∧
         eventDispatchers w' = eds ∧
         issued (setEnabled this true) w =
           [call_registerEventNotifier td this h CapacityExceeded]) ∧
  (∃ w', QWinEventNotifier_new_handle this h td eds = Ok tt w' ∧
         isEnabled w' = true ∧ is_registered this w' = false).
Proof.
  intros Hr Hnone Hfull w.
  assert (Registry_register this h r = (CapacityExceeded, r)) as Hreg.
  { unfold Registry_register. rewrite Hnone. by rewrite decide_True. }
  assert (setEnabled this true w =
          Ok tt (mkWorld (mkPrivate td h true) eds posted
                   (tr ++ [call_registerEventNotifier td this h CapacityExceeded])))
    as Hse.
  { rewrite setEnabled_eq. unfold setEnabled_calls, setEnabled_dispatchers, w. cbn.
    rewrite Hr. cbn. rewrite Hreg. cbn. by rewrite insert_id. }
  assert (∀ posted' tr', is_registered this
            (mkWorld (mkPrivate td h true) eds posted' tr') = false) as Hnot.
  { intros. unfold is_registered, registry_entry. cbn. rewrite Hr. cbn.
    rewrite Hnone. apply bool_decide_eq_false_2. by intros [? [=]]. }
  split; [exact Hreg|]. split.
  - eexists. split; [exact Hse|]. unfold returned. rewrite Hse.
    split; [done|]. split; [done|]. split; [apply Hnot|]. split; [done|].
    by erewrite issued_app; [| exact Hse | reflexivity].
  - rewrite (new_handle_as_setEnabled _ _ _ _ _ Hr).
    assert (setEnabled this true (mkWorld (QWinEventNotifierPrivate_init td h false) eds [] []) =
          Ok tt (mkWorld (mkPrivate td h true) eds []
                   ([] ++ [call_registerEventNotifier td this h CapacityExceeded])))
      as ->.
    { rewrite setEnabled_eq. unfold setEnabled_calls, setEnabled_dispatchers. cbn.
      rewrite Hr. cbn. rewrite Hreg. cbn. by rewrite insert_id. }
    eexists. split; [done|]. split; [done|]. apply Hnot.
Qed.

End RegistryFacts.

(** ** The hand-off, end to end *)

Section Transfer.
Context {D : Type} `{QEventDispatcherWin32 D}.

(** Moving an enabled notifier to another thread leaves it disabled, with
    the re-enabling call pending and nothing registered; delivering the
    pending call afterwards enables it again, and the registration it makes
    goes to the dispatcher of the new thread. *)
Theorem transfer_reenables_in_new_context (this : positive) (t : nat) (w : World D) :
  isEnabled w = true → postEventList w = [] →
  ∃ w1 w2,
    moveToThread this t w = Ok tt w1 ∧
    isEnabled w1 = false ∧ threadData (d_ptr w1) = t ∧
    postEventList w1 = [MC_setEnabled true] ∧
    count is_register (issued (moveToThread this t) w) = 0%nat ∧
    sendPostedEvents this w1 = Ok tt w2 ∧
    isEnabled w2 = true ∧ threadData (d_ptr w2) = t ∧ handle w2 = handle w ∧
    postEventList w2 = [] ∧
    issued (sendPostedEvents this) w1 =
      match eventDispatchers w1 !! t with
      | Some disp =>
          [call_registerEventNotifier t this (handle w)
             (registerEventNotifier this (handle w) disp).1]
      | None => []
      end.
Proof.
  intros Hen Hposted.
  assert (moveToThread this t w =
    Ok tt (mkWorld (mkPrivate t (handleToEvent (d_ptr w)) false)
             (setEnabled_dispatchers this false w)
             [MC_setEnabled true]
             (trace w ++ [call_invokeMethod_Queued this (MC_setEnabled true)]
                ++ setEnabled_calls this false w
                ++ [call_QObject_event this ThreadChange]))) as Hmove.
  { unfold moveToThread, mbind, M_bind.
    rewrite event_ThreadChange_enabled by done. by rewrite Hposted. }
  do 2 eexists. split; [exact Hmove|]. split; [done|]. split; [done|].
  split; [done|]. split.
  { erewrite issued_app; [| exact Hmove | reflexivity].
    unfold setEnabled_calls. unfold isEnabled in Hen. rewrite Hen. cbn.
    by destruct (eventDispatchers w !! threadData (d_ptr w)). }
  match goal with |- sendPostedEvents this ?x = _ ∧ _ => set (w1 := x) end.
  assert (sendPostedEvents this w1 =
    Ok tt (mkWorld (mkPrivate t (handleToEvent (d_ptr w)) true)
             (setEnabled_dispatchers this true
                (mkWorld (d_ptr w1) (eventDispatchers w1) [] (trace w1)))
             []
             (trace w1 ++ setEnabled_calls this true
                (mkWorld (d_ptr w1) (eventDispatchers w1) [] (trace w1)))))
    as Hsend.
  { unfold sendPostedEvents. cbn. unfold mbind, M_bind. by rewrite setEnabled_eq. }
  split; [exact Hsend|]. split; [done|]. split; [done|]. split; [done|].
  split; [done|].
  erewrite issued_app; [| exact Hsend | reflexivity].
  unfold setEnabled_calls, handle. cbn.
  by destruct (setEnabled_dispatchers this false w !! t).
Qed.

End Transfer.

(** ** Concrete runs *)

Lemma fresh_singleton this t (r : gmap positive Z) :
  r !! this = None → fresh this {[ t := r ]}.
Proof. intros Hr t' r' [-> <-]%lookup_singleton_Some. done. Qed.

Lemma spare_capacity_singleton t (r : gmap positive Z) :
  (size r < registry_capacity)%nat → spare_capacity {[ t := r ]}.
Proof. intros Hr t' r' [-> <-]%lookup_singleton_Some. done. Qed.

(** Counterexample to C2 as stated: on a notifier that an earlier
    [setEnabled(true)] has already enabled, two further [setEnabled(true)]
    calls in a row issue no registration at all; and on a thread without a
    dispatcher two [setEnabled(true)] calls on a disabled notifier issue
    none either.  In both runs the count is zero, not one. *)
Lemma setEnabled_twice_may_register_nothing :
  (∃ w, life 1 ctor_parent 0 one_loop [op_setEnabled true] = Ok tt w ∧
        isEnabled w = true ∧
        count is_register (issued (setEnabled 1 true;; setEnabled 1 true) w) = 0%nat) ∧
  (∃ w, life 1 ctor_parent 0 no_loop [] = Ok tt w ∧
        isEnabled w = false ∧
        count is_register (issued (setEnabled 1 true;; setEnabled 1 true) w) = 0%nat).
Proof. split; eexists; (split; [reflexivity|]); split; reflexivity. Qed.

(** Counterexample to C4 as stated: a notifier built without a handle and
    then enabled is registered although its handle is null, the registration
    call submits that null handle and the wait set holds it; and a notifier
    with a
    non-null handle enabled on a thread without a dispatcher is enabled but
    not registered. *)
Lemma null_handle_is_registered :
  (∃ w, life 1 ctor_parent 0 one_loop [op_setEnabled true] = Ok tt w ∧
        is_registered 1 w = true ∧ isEnabled w = true ∧ handle w = 0 ∧
        trace w = [call_registerEventNotifier 0 1 0 Registered] ∧
        waitSet <$> eventDispatchers w !! 0%nat = Some [(1%positive, 0)] ∧
        ¬ (is_registered 1 w = true ↔ isEnabled w = true ∧ handle w ≠ 0)) ∧
  (∃ w, life 1 ctor_parent 0 no_loop [op_setHandle 7; op_setEnabled true] = Ok tt w ∧
        is_registered 1 w = false ∧ isEnabled w = true ∧ handle w = 7 ∧
        ¬ (is_registered 1 w = true ↔ isEnabled w = true ∧ handle w ≠ 0)).
Proof.
  split; eexists; (split; [reflexivity|]); repeat (split; [reflexivity|]).
  - intros [Hreg _]. by destruct (Hreg eq_refl) as [_ Hh].
  - intros [_ Hreg]. discriminate Hreg. by split.
Qed.

(** Counterexample to C5 as stated: [setEnabled(true)] on a thread without
    a dispatcher is not fatal; it returns with the flag set. *)
Lemma setEnabled_true_without_dispatcher_returns :
  andThen (QWinEventNotifier_new 1 0 no_loop) (setEnabled 1 true) =
  Ok tt (mkWorld (mkPrivate 0 0 true) no_loop [] []).
Proof. reflexivity. Qed.

(** Counterexample to C8 as stated: enabling a notifier when the wait set
    is full returns normally with the flag set; the registration is refused
    by the dispatcher and the caller of [setEnabled] is not told. *)
Lemma registration_beyond_capacity_is_dropped :
  size full_registry = registry_capacity ∧
  ∃ w, life 1 ctor_parent 0 full_loop [op_setHandle 7; op_setEnabled true] = Ok tt w ∧
       returned (setEnabled 1 true)
         (mkWorld (mkPrivate 0 7 false) full_loop [] []) = Some tt ∧
       isEnabled w = true ∧ is_registered 1 w = false ∧
       eventDispatchers w = full_loop ∧
       trace w = [call_registerEventNotifier 0 1 7 CapacityExceeded].
Proof.
  split; [by vm_compute|]. eexists. split; [by vm_compute|].
  repeat split; by vm_compute.
Qed.

(** [setEnabled(true)] during shutdown, on a notifier watching handle [7]:
    the flag is set although there is nothing to register with. *)
Lemma setEnabled_without_dispatcher_sets_flag_witness :
  ∃ w', setEnabled 1 true (mkWorld (mkPrivate 0 7 false) no_loop [] []) = Ok tt w' ∧
        isEnabled w' = true ∧
        issued (setEnabled 1 true) (mkWorld (mkPrivate 0 7 false) no_loop [] []) = [] ∧
        eventDispatchers w' = no_loop ∧
        eventDispatchers w' !! threadData (d_ptr w') = None.
Proof.
  apply (setEnabled_without_dispatcher_sets_flag 1 true
           (mkWorld (mkPrivate 0 7 false) no_loop [] []));
    [cbn; discriminate | reflexivity].
Defined.

(** The destructor's [setEnabled(false)] during shutdown. *)
Lemma setEnabled_silent_without_dispatcher_witness :
  ∃ w', setEnabled 1 false (mkWorld (mkPrivate 0 7 true) no_loop [] []) = Ok tt w' ∧
        returned (setEnabled 1 false) (mkWorld (mkPrivate 0 7 true) no_loop [] []) = Some tt ∧
        issued (setEnabled 1 false) (mkWorld (mkPrivate 0 7 true) no_loop [] []) = [] ∧
        eventDispatchers w' = no_loop ∧
        postEventList w' = [] ∧
        handle w' = 7.
Proof.
  apply (setEnabled_silent_without_dispatcher 1 false
           (mkWorld (mkPrivate 0 7 true) no_loop [] [])).
  reflexivity.
Defined.

(** Both ways of enabling, tried in a process without any dispatcher. *)
Lemma enabling_without_dispatcher_witness :
  QWinEventNotifier_new_handle 1 7 0 no_loop =
    Fatal "QWinEventNotifier::QWinEventNotifier()"
          "Cannot create a win event notifier without a QEventDispatcherWin32" ∧
  ∃ w', setEnabled 1 true (mkWorld (mkPrivate 0 7 false) no_loop [] []) = Ok tt w' ∧
        isEnabled w' = true ∧
        issued (setEnabled 1 true) (mkWorld (mkPrivate 0 7 false) no_loop [] []) = [].
Proof.
  apply (enabling_without_dispatcher 1 7 0 no_loop
           (mkWorld (mkPrivate 0 7 false) no_loop [] [])); reflexivity.
Defined.

(** The world at the end of a life that goes through every operation: the
    notifier is created on thread [0] with handle [7], disabled, given
    handle [9], enabled, moved to thread [1], and re-enabled there. *)
Lemma registered_iff_enabled_with_dispatcher_witness :
  ∃ w, life 1 (ctor_handle 7) 0 two_loops
         [op_setEnabled false; op_setHandle 9; op_setEnabled true;
          op_event WinEventAct; op_moveToThread 1; op_sendPostedEvents] = Ok tt w ∧
    threadData (d_ptr w) = 1%nat ∧ is_registered 1 w = true ∧
    ((is_registered 1 w = true ↔
        isEnabled w = true ∧ is_Some (eventDispatchers w !! threadData (d_ptr w))) ∧
     (∀ t r, eventDispatchers w !! t = Some r → is_Some (r !! 1%positive) →
        t = threadData (d_ptr w)) ∧
     (∀ h, registry_entry 1 w = Some h → h = handle w) ∧
     (∀ r, eventDispatchers w !! threadData (d_ptr w) = Some r →
        (1%positive, handle w) ∈ waitSet r ↔ isEnabled w = true) ∧
     (∃ w', QWinEventNotifier_delete 1 w = Ok tt w' ∧
            isEnabled w' = false ∧ is_registered 1 w' = false)).
Proof.
  eexists. split; [by vm_compute|]. split; [reflexivity|]. split; [reflexivity|].
  apply (registered_iff_enabled_with_dispatcher 1 (ctor_handle 7) 0 two_loops
           [op_setEnabled false; op_setHandle 9; op_setEnabled true;
            op_event WinEventAct; op_moveToThread 1; op_sendPostedEvents]).
  - intros t r Ht. unfold two_loops in Ht.
    apply lookup_insert_Some in Ht as [[_ <-]|[_ [_ <-]%lookup_singleton_Some]]; done.
  - intros t r Ht. unfold two_loops in Ht.
    apply lookup_insert_Some in Ht as [[_ <-]|[_ [_ <-]%lookup_singleton_Some]];
      rewrite map_size_empty; unfold registry_capacity, MAXIMUM_WAIT_OBJECTS; lia.
  - by vm_compute.
Defined.

(** A notifier created with handle [7] on a running loop, whose handle
    then fires. *)
Lemma fired_handle_notifies_once_witness :
  ∃ w, life 1 (ctor_handle 7) 0 one_loop [] = Ok tt w ∧
    registry_entry 1 w = Some 7 ∧ isEnabled w = true ∧
    ((∃ w', event 1 WinEventAct w = Ok true w' ∧
            issued (event 1 WinEventAct) w =
              [call_QObject_event 1 WinEventAct; emit_activated 1 (handle w)] ∧
            d_ptr w' = d_ptr w ∧ eventDispatchers w' = eventDispatchers w ∧
            postEventList w' = postEventList w) ∧
     (registry_entry 1 w = Some 7 ∧ isEnabled w = true →
      ∃ w', dispatchFired 1 7 w = Ok true w' ∧
            issued (dispatchFired 1 7) w =
              [call_QObject_event 1 WinEventAct; emit_activated 1 7] ∧
            count is_activated (issued (dispatchFired 1 7) w) = 1%nat ∧
            postEventList w' = postEventList w) ∧
     (¬ (registry_entry 1 w = Some 7 ∧ isEnabled w = true) →
      dispatchFired 1 7 w = Ok false w ∧
      issued (dispatchFired 1 7) w = [])).
Proof.
  eexists. split; [by vm_compute|]. split; [reflexivity|]. split; [reflexivity|].
  apply (fired_handle_notifies_once 1 (ctor_handle 7) 0 one_loop []).
  - by apply fresh_singleton.
  - by vm_compute.
Defined.

(** A sixty-fourth notifier asking for a slot on a loop that already
    serves sixty-three. *)
Lemma capacity_error_is_discarded_witness :
  registerEventNotifier 1 7 full_registry = (CapacityExceeded, full_registry) ∧
  (∃ w', setEnabled 1 true (mkWorld (mkPrivate 0 7 false) full_loop [] []) = Ok tt w' ∧
         returned (setEnabled 1 true) (mkWorld (mkPrivate 0 7 false) full_loop [] [])
           = Some tt ∧
         isEnabled w' = true ∧
         is_registered 1 w' = false ∧
         eventDispatchers w' = full_loop ∧
         issued (setEnabled 1 true) (mkWorld (mkPrivate 0 7 false) full_loop [] []) =
           [call_registerEventNotifier 0 1 7 CapacityExceeded]) ∧
  (∃ w', QWinEventNotifier_new_handle 1 7 0 full_loop = Ok tt w' ∧
         isEnabled w' = true ∧ is_registered 1 w' = false).
Proof.
  apply (capacity_error_is_discarded 1 0 7 [] [] full_loop full_registry).
  - reflexivity.
  - by vm_compute.
  - by vm_compute.
Defined.

(** * Further properties of the member functions *)

Section MoreFacts.
Context {D : Type} `{QEventDispatcherWin32 D}.
Implicit Types (w : World D) (this : positive) (b : bool) (e : QEventType).

(** X1: the destructor never aborts, whether or not the thread still has a
    dispatcher.  It leaves the flag [false] and the handle, the thread data
    and the queue of deferred calls as they were; it calls the dispatcher
    at most once, and that call is the unregistration of this notifier with
    the handle it holds, made exactly when the notifier was enabled and its
    thread has a dispatcher.  It never registers, posts or emits. *)
Theorem destructor_disables_and_unregisters this w :
  ∃ w', QWinEventNotifier_delete this w = Ok tt w' ∧
    isEnabled w' = false ∧ handle w' = handle w ∧
    threadData (d_ptr w') = threadData (d_ptr w) ∧
    postEventList w' = postEventList w ∧
    issued (QWinEventNotifier_delete this) w =
      (if isEnabled w
          && bool_decide (is_Some (eventDispatchers w !! threadData (d_ptr w)))
       then [call_unregisterEventNotifier (threadData (d_ptr w)) this (handle w)]
       else []) ∧
    (isEnabled w = false → w' = w).
Proof.
  unfold QWinEventNotifier_delete. eexists. split; [apply setEnabled_eq|].
  rewrite issued_setEnabled.
  unfold setEnabled_calls, setEnabled_dispatchers, isEnabled, handle. cbn.
  repeat (split; [done|]). split.
  - destruct (enabled (d_ptr w)); case_bool_decide; try done; cbn.
    by destruct (eventDispatchers w !! threadData (d_ptr w)).
  - intros Hen. rewrite !bool_decide_eq_true_2 by done.
    rewrite app_nil_r. destruct w as [[td h en] eds posted tr]. cbn in *. by subst.
Qed.

(** With a dispatcher on the thread, the handle-taking constructor ends
    where [setEnabled(true)] on a freshly initialised, disabled notifier
    ends. *)
Lemma new_handle_world this hEvent td (eds : gmap nat D) disp :
  eds !! td = Some disp →
  let w' := mkWorld (mkPrivate td hEvent true)
              (<[td := (registerEventNotifier this hEvent disp).2]> eds) []
              [call_registerEventNotifier td this hEvent
                 (registerEventNotifier this hEvent disp).1] in
  QWinEventNotifier_new_handle this hEvent td eds = Ok tt w' ∧
  setEnabled this true (mkWorld (mkPrivate td hEvent false) eds [] []) = Ok tt w'.
Proof.
  intros Hd. cbv zeta. split.
  - unfold QWinEventNotifier_new_handle, QWinEventNotifierPrivate_init.
    monad_unfold. cbn. by rewrite Hd.
  - rewrite setEnabled_eq. unfold setEnabled_calls, setEnabled_dispatchers.
    simpl. by rewrite Hd.
Qed.

(** X2: on a thread that has a dispatcher, constructing a notifier with a
    handle is the same as constructing it without one, then calling
    [setHandle] and [setEnabled(true)]: both end in the same world, with
    the notifier enabled, holding the handle, and one registration
    submitted for that handle. *)
Theorem handle_constructor_as_composition this hEvent td (eds : gmap nat D) disp :
  eds !! td = Some disp →
  QWinEventNotifier_new_handle this hEvent td eds =
    andThen (QWinEventNotifier_new this td eds)
            (setHandle this hEvent;; setEnabled this true) ∧
  ∃ w, QWinEventNotifier_new_handle this hEvent td eds = Ok tt w ∧
       isEnabled w = true ∧ handle w = hEvent ∧ threadData (d_ptr w) = td ∧
       postEventList w = [] ∧
       trace w = [call_registerEventNotifier td this hEvent
                    (registerEventNotifier this hEvent disp).1] ∧
       eventDispatchers w = <[td := (registerEventNotifier this hEvent disp).2]> eds.
Proof.
  intros Hd. destruct (new_handle_world this hEvent td eds disp Hd) as [Hnew _].
  split; [|by eexists].
  rewrite Hnew. unfold QWinEventNotifier_new, andThen, setHandle, mbind, M_bind.
  rewrite setEnabled_eq. cbn. rewrite setEnabled_eq.
  unfold setEnabled_calls, setEnabled_dispatchers. simpl. by rewrite Hd.
Qed.



(** X4: handling [ThreadChange] twice in a row is the same as handling it
    once, apart from the second hand-over to [QObject::event]: the first
    handling leaves the notifier disabled, so the second posts no further
    re-enabling call and makes no dispatcher call. *)
Theorem ThreadChange_twice_posts_once this w :
  ∃ w1 w2,
    event this ThreadChange w = Ok false w1 ∧
    event this ThreadChange w1 = Ok false w2 ∧
    isEnabled w1 = false ∧
    d_ptr w2 = d_ptr w1 ∧
    eventDispatchers w2 = eventDispatchers w1 ∧
    postEventList w2 = postEventList w1 ∧
    issued (event this ThreadChange) w1 = [call_QObject_event this ThreadChange] ∧
    length (postEventList w2) =
      (length (postEventList w) + if isEnabled w then 1 else 0)%nat.
Proof.
  assert (∃ w1, event this ThreadChange w = Ok false w1 ∧ isEnabled w1 = false ∧
                length (postEventList w1) =
                  (length (postEventList w) + if isEnabled w then 1 else 0)%nat)
    as (w1 & Hw1 & Hen1 & Hlen).
  { destruct (isEnabled w) eqn:Hen.
    - eexists. split; [by apply event_ThreadChange_enabled|]. split; [done|].
      cbn. by rewrite length_app.
    - eexists. split; [by apply event_ThreadChange_disabled|]. split; [done|].
      cbn. lia. }
  exists w1. eexists. split; [exact Hw1|].
  split; [by apply event_ThreadChange_disabled|]. split; [done|].
  erewrite (issued_app (event this ThreadChange) w1);
    [| by apply event_ThreadChange_disabled | reflexivity].
  done.
Qed.

(** X5: of two [setHandle] calls in a row only the second handle remains,
    and the pair does exactly what the second call alone would have done:
    the notifier is unregistered once, with the handle it held before the
    first call. *)
Theorem setHandle_twice this h1 h2 w :
  (setHandle this h1;; setHandle this h2) w = setHandle this h2 w.
Proof.
  unfold setHandle, mbind, M_bind. rewrite !setEnabled_eq. cbn.
  rewrite setEnabled_eq. cbn.
  unfold setEnabled_calls at 1, setEnabled_dispatchers at 1. cbn.
  rewrite !bool_decide_eq_true_2 by done. by rewrite app_nil_r.
Qed.

(** X6: [setHandle(h)] followed by [setEnabled(true)] always leaves the
    notifier enabled with handle [h].  On a thread with a dispatcher the
    registration it ends with submits the new handle [h], after the
    unregistration of the old handle if the notifier was enabled; on a
    thread without one no call is made. *)
Theorem setHandle_then_enable_registers_new_handle this h w :
  ∃ w', (setHandle this h;; setEnabled this true) w = Ok tt w' ∧
    isEnabled w' = true ∧ handle w' = h ∧
    threadData (d_ptr w') = threadData (d_ptr w) ∧
    issued (setHandle this h;; setEnabled this true) w =
      match eventDispatchers w !! threadData (d_ptr w) with
      | None => []
      | Some disp =>
          (if isEnabled w
           then [call_unregisterEventNotifier (threadData (d_ptr w)) this (handle w)]
           else [])
          ++ [call_registerEventNotifier (threadData (d_ptr w)) this h
                (registerEventNotifier this h
                   (if isEnabled w then unregisterEventNotifier this disp else disp)).1]
      end.
Proof.
  assert (∃ w', (setHandle this h;; setEnabled this true) w = Ok tt w' ∧
                d_ptr w' = mkPrivate (threadData (d_ptr w)) h true ∧
                trace w' = trace w ++
      match eventDispatchers w !! threadData (d_ptr w) with
      | None => []
      | Some disp =>
          (if isEnabled w
           then [call_unregisterEventNotifier (threadData (d_ptr w)) this (handle w)]
           else [])
          ++ [call_registerEventNotifier (threadData (d_ptr w)) this h
                (registerEventNotifier this h
                   (if isEnabled w then unregisterEventNotifier this disp else disp)).1]
      end) as (w' & Hw' & Hd & Htr).
  { unfold setHandle, mbind, M_bind. rewrite setEnabled_eq. cbn.
    rewrite setEnabled_eq. cbn. eexists. split; [reflexivity|]. split; [done|].
    cbn. rewrite <- app_assoc. f_equal.
    unfold setEnabled_calls, setEnabled_dispatchers, isEnabled, handle. cbn.
    destruct (enabled (d_ptr w)); simpl.
    - destruct (eventDispatchers w !! threadData (d_ptr w)) as [disp|] eqn:Hdisp;
        simpl; [by rewrite lookup_insert_eq | by rewrite Hdisp].
    - by destruct (eventDispatchers w !! threadData (d_ptr w)). }
  exists w'. split; [exact Hw'|]. unfold isEnabled, handle. rewrite Hd.
  repeat (split; [done|]).
  by erewrite issued_app; [| exact Hw' | exact Htr].
Qed.

End MoreFacts.

(** ** Invariants that read the trace and the queue

    A property that looks at the trace or at the queue of deferred calls is
    stable under every sequence of operations when it is stable under
    [setEnabled], under recording a call that is not a dispatcher call,
    under posting [setEnabled(true)], under emptying the queue, and under
    writes to the handle and the thread data of a disabled notifier. *)

Section TraceRule.
Context {D : Type} `{QEventDispatcherWin32 D}.
Variable this : positive.
Variable P : World D → Prop.
Hypothesis P_setEnabled :
  ∀ b w w', P w → setEnabled this b w = Ok tt w' → P w'.
Hypothesis P_log :
  ∀ w c, is_register c = false → is_unregister c = false → P w →
    P (mkWorld (d_ptr w) (eventDispatchers w) (postEventList w) (trace w ++ [c])).
Hypothesis P_post :
  ∀ w, P w →
    P (mkWorld (d_ptr w) (eventDispatchers w)
         (postEventList w ++ [MC_setEnabled true]) (trace w)).
Hypothesis P_clear :
  ∀ w, P w → P (mkWorld (d_ptr w) (eventDispatchers w) [] (trace w)).
Hypothesis P_rebind :
  ∀ w t h, P w → isEnabled w = false →
    P (mkWorld (mkPrivate t h false) (eventDispatchers w) (postEventList w) (trace w)).

Lemma traced_setEnabled b w :
  P w → ∃ w', setEnabled this b w = Ok tt w' ∧ P w' ∧ isEnabled w' = b.
Proof.
  intros HP. eexists. split; [apply setEnabled_eq|]. split; [|done].
  eapply P_setEnabled; [exact HP | apply setEnabled_eq].
Qed.

Lemma traced_setHandle h w :
  P w → ∃ w', setHandle this h w = Ok tt w' ∧ P w'.
Proof.
  intros HP. destruct (traced_setEnabled false w HP) as (w1 & Hw1 & HP1 & Hen1).
  unfold setHandle, mbind, M_bind. rewrite Hw1.
  eexists. split; [reflexivity|].
  unfold isEnabled in Hen1. rewrite Hen1.
  by apply (P_rebind w1 (threadData (d_ptr w1)) h).
Qed.

Lemma traced_event e w :
  P w → ∃ r w', event this e w = Ok r w' ∧ P w' ∧
                (e = ThreadChange → isEnabled w' = false).
Proof.
  intros HP. destruct e as [| |code].
  - destruct (isEnabled w) eqn:Hen.
    + rewrite event_ThreadChange_enabled by done.
      do 2 eexists. split; [reflexivity|]. split; [|done].
      pose proof (P_log _ (call_invokeMethod_Queued this (MC_setEnabled true))
                    eq_refl eq_refl (P_post w HP)) as HP1. cbn in HP1.
      pose proof (P_setEnabled false _ _ HP1 (setEnabled_eq this false _)) as HP2.
      cbn in HP2.
      pose proof (P_log _ (call_QObject_event this ThreadChange)
                    eq_refl eq_refl HP2) as HP3. cbn in HP3.
      rewrite <- !app_assoc in HP3. exact HP3.
    + rewrite event_ThreadChange_disabled by done.
      do 2 eexists. split; [reflexivity|]. split; [|done].
      by apply (P_log w (call_QObject_event this ThreadChange)).
  - rewrite event_WinEventAct. do 2 eexists.
    split; [reflexivity|]. split; [|done].
    pose proof (P_log _ (emit_activated this (handleToEvent (d_ptr w))) eq_refl eq_refl
                  (P_log w (call_QObject_event this WinEventAct) eq_refl eq_refl HP))
      as HP2.
    cbn in HP2. by rewrite <- app_assoc in HP2.
  - rewrite event_Other. do 2 eexists.
    split; [reflexivity|]. split; [|done].
    by apply (P_log w (call_QObject_event this (OtherEvent code))).
Qed.

Lemma traced_moveToThread t w :
  P w → ∃ w', moveToThread this t w = Ok tt w' ∧ P w'.
Proof.
  intros HP. destruct (traced_event ThreadChange w HP) as (r & w1 & Hw1 & HP1 & Hen1).
  specialize (Hen1 eq_refl).
  unfold moveToThread, mbind, M_bind. rewrite Hw1.
  eexists. split; [reflexivity|]. unfold isEnabled in Hen1. rewrite Hen1.
  by apply (P_rebind w1 t (handleToEvent (d_ptr w1))).
Qed.

Lemma traced_deliver ms w :
  P w → ∃ w', deliver this ms w = Ok tt w' ∧ P w'.
Proof.
  revert w. induction ms as [|[b] ms IH]; intros w HP; cbn.
  - by eexists.
  - destruct (traced_setEnabled b w HP) as (w1 & Hw1 & HP1 & _).
    unfold mbind, M_bind. rewrite Hw1. by apply IH.
Qed.

Lemma traced_step o w :
  P w → ∃ w', step this o w = Ok tt w' ∧ P w'.
Proof.
  intros HP. destruct o as [h|b|e|t|]; cbn.
  - by apply traced_setHandle.
  - destruct (traced_setEnabled b w HP) as (w' & ? & ? & _); eauto.
  - destruct (traced_event e w HP) as (r & w' & Hw' & ? & _).
    unfold mbind, M_bind. rewrite Hw'. eauto.
  - by apply traced_moveToThread.
  - unfold sendPostedEvents. apply traced_deliver. by apply P_clear.
Qed.

Lemma traced_run ops w :
  P w → ∃ w', run this ops w = Ok tt w' ∧ P w'.
Proof.
  revert w. induction ops as [|o ops IH]; intros w HP; cbn.
  - by eexists.
  - destruct (traced_step o w HP) as (w1 & Hw1 & HP1).
    unfold mbind, M_bind. rewrite Hw1. by apply IH.
Qed.

(** The same for a whole life, from either constructor. *)
Lemma traced_life c td (eds : gmap nat D) ops w :
  (∀ h, P (mkWorld (mkPrivate td h false) eds [] [])) →
  life this c td eds ops = Ok tt w → P w.
Proof.
  intros Hinit. unfold life.
  destruct (construct this c td eds) as [[] w1|] eqn:Hc; [|done]. cbn.
  assert (P w1) as HP1.
  { destruct c as [|h]; cbn in Hc.
    - injection Hc as <-. apply Hinit.
    - destruct (eds !! td) as [disp|] eqn:Hd.
      + destruct (new_handle_world this h td eds disp Hd) as [Hnew Hse].
        rewrite Hnew in Hc. injection Hc as <-.
        eapply P_setEnabled; [apply (Hinit h) | exact Hse].
      + unfold QWinEventNotifier_new_handle in Hc. monad_unfold. cbn in Hc.
        by rewrite Hd in Hc. }
  destruct (traced_run ops w1 HP1) as (w' & Hrun & HP').
  rewrite Hrun. by intros [= <-].
Qed.

End TraceRule.

(** ** What the trace of a life looks like *)

Section LifeFacts.
Context {D : Type} `{QEventDispatcherWin32 D}.
Implicit Types (w : World D) (this : positive) (b : bool) (e : QEventType).

Lemma replay_app this st tr1 tr2 :
  replay this st (tr1 ++ tr2) = replay this st tr1 ≫= (λ st', replay this st' tr2).
Proof.
  revert st. induction tr1 as [|c tr1 IH]; intros st; [done|].
  destruct c as [t n h s|t n h| | |]; cbn; try apply IH.
  - destruct st; [done|]. case_decide; [apply IH | done].
  - destruct st as [th|]; [|done]. case_decide; [apply IH | done].
Qed.

Lemma replay_snoc_other this st tr c :
  is_register c = false → is_unregister c = false →
  replay this st (tr ++ [c]) = replay this st tr.
Proof.
  intros Hr Hu. rewrite replay_app.
  destruct (replay this st tr) as [st'|]; [|done]. cbn.
  by destruct c.
Qed.

Lemma count_app (p : Call → bool) (tr1 tr2 : list Call) :
  count p (tr1 ++ tr2) = (count p tr1 + count p tr2)%nat.
Proof. unfold count. by rewrite filter_app, length_app. Qed.

Lemma count_cons (p : Call → bool) (c : Call) (tr : list Call) :
  count p (c :: tr) = ((if p c then 1 else 0) + count p tr)%nat.
Proof.
  unfold count. rewrite filter_cons. destruct (p c); by case_decide.
Qed.

(** A trace that replays has one more registration than unregistrations
    exactly when it ends registered. *)
Lemma replay_counts this st tr st' :
  replay this st tr = Some st' →
  (count is_register tr + (if st is Some _ then 1 else 0) =
   count is_unregister tr + (if st' is Some _ then 1 else 0))%nat.
Proof.
  revert st. induction tr as [|c tr IH]; intros st Hr.
  - cbn in Hr. by injection Hr as ->.
  - rewrite !count_cons.
    destruct c as [t n h s|t n h| | |]; cbn in Hr |- *; try by apply IH in Hr.
    + destruct st; [done|]. case_decide; [|done].
      apply IH in Hr. cbn in *. lia.
    + destruct st as [th|]; [|done]. case_decide; [|done].
      apply IH in Hr. cbn in *. lia.
Qed.

Lemma paired_setEnabled this b w w' :
  replay this None (trace w) = Some (registration_due w) →
  setEnabled this b w = Ok tt w' →
  replay this None (trace w') = Some (registration_due w').
Proof.
  intros HP. rewrite setEnabled_eq. intros [= <-]. cbn.
  rewrite replay_app, HP. cbn.
  unfold registration_due, setEnabled_calls, setEnabled_dispatchers, isEnabled, handle.
  destruct (eventDispatchers w !! threadData (d_ptr w)) as [disp|] eqn:Hd;
    destruct (enabled (d_ptr w)) eqn:Hen; destruct b; simpl;
    rewrite ?lookup_insert_eq, ?Hd; simpl; try done;
    by rewrite decide_True.
Qed.

Lemma paired_life this c td (eds : gmap nat D) ops w :
  life this c td eds ops = Ok tt w →
  replay this None (trace w) = Some (registration_due w).
Proof.
  apply (traced_life this
           (λ w, replay this None (trace w) = Some (registration_due w))).
  - apply paired_setEnabled.
  - intros w0 c0 Hr Hu HP. cbn. by rewrite replay_snoc_other.
  - done.
  - done.
  - intros w0 t h HP Hen. cbn. rewrite HP. unfold registration_due.
    cbn. by rewrite Hen.
  - done.
Qed.

(** X7: over a whole life, the dispatcher calls made for a notifier form
    proper pairs.  Each names this notifier; a registration is made only
    while none is outstanding; an unregistration goes to the dispatcher
    that received the outstanding registration and carries the handle
    submitted with it; and a registration is outstanding at the end exactly
    when the notifier is enabled on a thread that has a dispatcher, in
    which case it is with that thread's dispatcher, for the handle the
    notifier stores.  So the registrations outnumber the unregistrations
    by one in that case, and equal them otherwise. *)
Theorem dispatcher_calls_are_paired this c td (eds : gmap nat D) ops w :
  life this c td eds ops = Ok tt w →
  replay this None (trace w) = Some (registration_due w) ∧
  count is_register (trace w) =
    (count is_unregister (trace w)
     + if isEnabled w
          && bool_decide (is_Some (eventDispatchers w !! threadData (d_ptr w)))
       then 1 else 0)%nat.
Proof.
  intros Hlife. pose proof (paired_life _ _ _ _ _ _ Hlife) as HP.
  split; [exact HP|]. unfold registration_due in HP.
  destruct (isEnabled w && _); apply replay_counts in HP; cbv iota in HP; lia.
Qed.


Lemma deliver_fields this ms w w' :
  deliver this ms w = Ok tt w' →
  handle w' = handle w ∧ threadData (d_ptr w') = threadData (d_ptr w).
Proof.
  revert w. induction ms as [|[b] ms IH]; intros w; cbn.
  - by intros [= <-].
  - unfold mbind, M_bind. rewrite setEnabled_eq. intros Hd.
    by apply IH in Hd.
Qed.

Lemma event_fields this e w r w' :
  event this e w = Ok r w' →
  handle w' = handle w ∧ threadData (d_ptr w') = threadData (d_ptr w).
Proof.
  destruct e as [| |code].
  - destruct (isEnabled w) eqn:Hen.
    + rewrite event_ThreadChange_enabled by done. by intros [= _ <-].
    + rewrite event_ThreadChange_disabled by done. by intros [= _ <-].
  - rewrite event_WinEventAct. by intros [= _ <-].
  - rewrite event_Other. by intros [= _ <-].
Qed.

Lemma step_handle this o w w' :
  step this o w = Ok tt w' → handle w' = last_handle (handle w) [o].
Proof.
  destruct o as [h|b|e|t|]; cbn.
  - unfold setHandle, mbind, M_bind. rewrite setEnabled_eq. by intros [= <-].
  - rewrite setEnabled_eq. by intros [= <-].
  - unfold mbind, M_bind. destruct (event this e w) as [r w1|] eqn:He; [|done].
    intros [= <-]. by apply event_fields in He as [? _].
  - unfold moveToThread, mbind, M_bind.
    destruct (event this ThreadChange w) as [r w1|] eqn:He; [|done].
    intros [= <-]. by apply event_fields in He as [? _].
  - unfold sendPostedEvents. intros Hd. by apply deliver_fields in Hd as [? _].
Qed.

Lemma run_handle this ops w w' :
  run this ops w = Ok tt w' → handle w' = last_handle (handle w) ops.
Proof.
  revert w. induction ops as [|o ops IH]; intros w; cbn.
  - by intros [= <-].
  - unfold mbind, M_bind. destruct (step this o w) as [[] w1|] eqn:Hs; [|done].
    intros Hr. apply IH in Hr. apply step_handle in Hs.
    rewrite Hr, Hs. done.
Qed.

(** X9: at the end of any life, [handle()] answers the argument of the
    last [setHandle] call, or the handle given to the constructor (null
    for the parent-only constructor) if there was none.  Enabling,
    disabling, event handling, thread moves and deferred calls never change
    it. *)
Theorem handle_is_last_set this c td (eds : gmap nat D) ops w :
  life this c td eds ops = Ok tt w →
  handle w = last_handle (ctor_handle_of c) ops.
Proof.
  unfold life. destruct (construct this c td eds) as [[] w1|] eqn:Hc; [|done].
  cbn. intros Hr. apply run_handle in Hr. rewrite Hr. f_equal.
  destruct c as [|h]; cbn in Hc.
  - by injection Hc as <-.
  - destruct (eds !! td) as [disp|] eqn:Hd.
    + destruct (new_handle_world this h td eds disp Hd) as [Hnew _].
      rewrite Hnew in Hc. by injection Hc as <-.
    + unfold QWinEventNotifier_new_handle in Hc. monad_unfold. cbn in Hc.
      by rewrite Hd in Hc.
Qed.

Lemma deliver_enables this ms w :
  Forall (λ m, m = MC_setEnabled true) ms →
  ∃ w' calls, deliver this ms w = Ok tt w' ∧
    trace w' = trace w ++ calls ∧
    count is_unregister calls = 0%nat ∧
    postEventList w' = postEventList w ∧
    isEnabled w' = (isEnabled w || negb (bool_decide (ms = []))).
Proof.
  revert w. induction ms as [|m ms IH]; intros w Hall.
  - exists w, []. cbn. rewrite app_nil_r, orb_false_r. done.
  - apply Forall_cons in Hall as [-> Hall]. cbn.
    unfold mbind, M_bind. rewrite setEnabled_eq.
    destruct (IH (mkWorld (mkPrivate (threadData (d_ptr w)) (handleToEvent (d_ptr w)) true)
           (setEnabled_dispatchers this true w) (postEventList w)
           (trace w ++ setEnabled_calls this true w)) Hall)
      as (w' & calls & Hd & Htr & Hcnt & Hp & Hen).
    exists w', (setEnabled_calls this true w ++ calls).
    split; [exact Hd|]. split; [rewrite Htr; cbn; by rewrite <- app_assoc|]. split.
    + rewrite count_app, Hcnt. unfold setEnabled_calls. cbv zeta.
      destruct (enabled (d_ptr w)); simpl; [reflexivity|].
      destruct (eventDispatchers w !! threadData (d_ptr w)); reflexivity.
    + split; [done|]. rewrite Hen. cbn. by rewrite orb_true_r.
Qed.

(** X10: the only call a notifier ever posts to itself is
    [setEnabled(true)]: at the end of any life every pending deferred call
    is one.  Delivering the pending calls therefore never disables the
    notifier and never unregisters it: afterwards the queue is empty and
    the notifier is enabled if it was before or if a call was pending. *)
Theorem only_enabling_calls_are_posted this c td (eds : gmap nat D) ops w :
  life this c td eds ops = Ok tt w →
  Forall (λ m, m = MC_setEnabled true) (postEventList w) ∧
  ∃ w', sendPostedEvents this w = Ok tt w' ∧
        postEventList w' = [] ∧
        count is_unregister (issued (sendPostedEvents this) w) = 0%nat ∧
        isEnabled w' = (isEnabled w || negb (bool_decide (postEventList w = []))).
Proof.
  intros Hlife.
  assert (Forall (λ m, m = MC_setEnabled true) (postEventList w)) as Hall.
  { revert Hlife.
    apply (traced_life this
             (λ w, Forall (λ m, m = MC_setEnabled true) (postEventList w))).
    - intros b w0 w'. rewrite setEnabled_eq. by intros ? [= <-].
    - done.
    - intros w0 HP. cbn. apply Forall_app. split; [done|]. by apply Forall_singleton.
    - intros w0 _. cbn. apply Forall_nil_2.
    - done.
    - intros h. cbn. apply Forall_nil_2. }
  split; [exact Hall|].
  destruct (deliver_enables this (postEventList w)
              (mkWorld (d_ptr w) (eventDispatchers w) [] (trace w)) Hall)
    as (w' & calls & Hd & Htr & Hcnt & Hp & Hen).
  exists w'. split; [exact Hd|]. split; [exact Hp|].
  split; [|exact Hen].
  by erewrite (issued_app (sendPostedEvents this) w); [| exact Hd | exact Htr].
Qed.

End LifeFacts.

(** ** Concrete runs of the further properties *)

(** A notifier created with handle [7] on a thread with a running loop. *)
Lemma handle_constructor_as_composition_witness :
  QWinEventNotifier_new_handle 1 7 0 one_loop =
    andThen (QWinEventNotifier_new 1 0 one_loop)
            (setHandle 1 7;; setEnabled 1 true) ∧
  ∃ w, QWinEventNotifier_new_handle 1 7 0 one_loop = Ok tt w ∧
       isEnabled w = true ∧ handle w = 7 ∧ threadData (d_ptr w) = 0%nat ∧
       postEventList w = [] ∧
       trace w = [call_registerEventNotifier 0 1 7
                    (registerEventNotifier 1 7 (∅ : gmap positive Z)).1] ∧
       eventDispatchers w =
         <[0%nat := (registerEventNotifier 1 7 (∅ : gmap positive Z)).2]> one_loop.
Proof.
  apply (handle_constructor_as_composition 1 7 0 one_loop ∅). reflexivity.
Defined.

(** A life through every operation: created on thread [0] with handle [7],
    disabled, given handle [9], enabled, notified, moved to thread [1] and
    re-enabled there.  Its trace pairs the registration of [7] and of [9]
    on thread [0] with their unregistrations and ends with [9] registered
    on thread [1]. *)
Lemma dispatcher_calls_are_paired_witness :
  ∃ w, life 1 (ctor_handle 7) 0 two_loops
         [op_setEnabled false; op_setHandle 9; op_setEnabled true;
          op_event WinEventAct; op_moveToThread 1; op_sendPostedEvents] = Ok tt w ∧
    registration_due w = Some (1%nat, 9) ∧
    count is_register (trace w) = 3%nat ∧
    (replay 1 None (trace w) = Some (registration_due w) ∧
     count is_register (trace w) =
       (count is_unregister (trace w)
        + if isEnabled w
             && bool_decide (is_Some (eventDispatchers w !! threadData (d_ptr w)))
          then 1 else 0)%nat).
Proof.
  eexists. split; [by vm_compute|]. split; [reflexivity|]. split; [reflexivity|].
  apply (dispatcher_calls_are_paired 1 (ctor_handle 7) 0 two_loops
           [op_setEnabled false; op_setHandle 9; op_setEnabled true;
            op_event WinEventAct; op_moveToThread 1; op_sendPostedEvents]).
  by vm_compute.
Defined.


(** Two [setHandle] calls among other operations: the second handle stays. *)
Lemma handle_is_last_set_witness :
  ∃ w, life 1 (ctor_handle 7) 0 one_loop
         [op_setHandle 9; op_setEnabled true; op_setHandle 11;
          op_event ThreadChange; op_setEnabled true] = Ok tt w ∧
    last_handle (ctor_handle_of (ctor_handle 7))
      [op_setHandle 9; op_setEnabled true; op_setHandle 11;
       op_event ThreadChange; op_setEnabled true] = 11 ∧
    handle w =
      last_handle (ctor_handle_of (ctor_handle 7))
        [op_setHandle 9; op_setEnabled true; op_setHandle 11;
         op_event ThreadChange; op_setEnabled true].
Proof.
  eexists. split; [by vm_compute|]. split; [reflexivity|].
  apply (handle_is_last_set 1 (ctor_handle 7) 0 one_loop
           [op_setHandle 9; op_setEnabled true; op_setHandle 11;
            op_event ThreadChange; op_setEnabled true]).
  by vm_compute.
Defined.

(** An enabled notifier told about a thread change twice, with the
    re-enabling call still pending. *)
Lemma only_enabling_calls_are_posted_witness :
  ∃ w, life 1 (ctor_handle 7) 0 one_loop
         [op_event ThreadChange; op_event ThreadChange] = Ok tt w ∧
    postEventList w = [MC_setEnabled true] ∧ isEnabled w = false ∧
    (Forall (λ m, m = MC_setEnabled true) (postEventList w) ∧
     ∃ w', sendPostedEvents 1 w = Ok tt w' ∧
           postEventList w' = [] ∧
           count is_unregister (issued (sendPostedEvents 1) w) = 0%nat ∧
           isEnabled w' = (isEnabled w || negb (bool_decide (postEventList w = [])))).
Proof.
  eexists. split; [by vm_compute|]. split; [reflexivity|]. split; [reflexivity|].
  apply (only_enabling_calls_are_posted 1 (ctor_handle 7) 0 one_loop
           [op_event ThreadChange; op_event ThreadChange]).
  by vm_compute.
Defined.
